(** * doccheck: a shallow embedding of the documentation linter

    The development follows [main.go]: Go strings are byte strings
    ([string], one [ascii] per byte), Go's [int] is a 64-bit two's
    complement integer kept in [Z] with its wrap-around written out, the
    [*linter] receiver is threaded explicitly, and a run-time panic (nil
    dereference, index out of range) is the [None] of the option monad. *)

From Stdlib Require Import ZArith Ascii String DecimalString.
From stdpp Require Import list strings gmap.

Local Open Scope Z_scope.

(** ** Go strings *)

Module GoString.

Definition bytes (s : string) : list ascii := String.list_ascii_of_string s.

Definition LF : string := String "010"%char EmptyString.
Definition TAB : string := String "009"%char EmptyString.

(** [len(s)]: the number of bytes. *)
Definition len (s : string) : Z := Z.of_nat (length (bytes s)).

Fixpoint hasPrefix (s p : list ascii) : bool :=
  match p, s with
  | [], _ => true
  | _ :: _, [] => false
  | a :: p', b :: s' => Ascii.eqb a b && hasPrefix s' p'
  end.

(** [strings.HasPrefix(s, prefix)]. *)
Definition HasPrefix (s p : string) : bool := hasPrefix (bytes s) (bytes p).

Fixpoint contains (s sub : list ascii) : bool :=
  hasPrefix s sub ||
  match s with
  | [] => false
  | _ :: s' => contains s' sub
  end.

(** [strings.Contains(s, substr)]. *)
Definition Contains (s sub : string) : bool := contains (bytes s) (bytes sub).

Fixpoint count (s : list ascii) (c : ascii) : Z :=
  match s with
  | [] => 0
  | b :: s' => (if Ascii.eqb b c then 1 else 0) + count s' c
  end.

(** [strings.Count(s, "\n")]: the separator is the single byte LF. *)
Definition CountLF (s : string) : Z := count (bytes s) "010"%char.

Definition lowerByte (c : ascii) : ascii :=
  let n := N_of_ascii c in
  if ((65 <=? n) && (n <=? 90))%N then ascii_of_N (n + 32) else c.

(** [strings.ToLower], which [initRegexps] applies to ASCII literals only. *)
Definition ToLower (s : string) : string :=
  String.string_of_list_ascii (map lowerByte (bytes s)).

(** [s[len(s)-1]]: indexing an empty string panics. *)
Definition lastByte (s : string) : option ascii := last (bytes s).

(** [rune(b)] for a byte [b]. *)
Definition rune (b : ascii) : Z := Z.of_N (N_of_ascii b).

End GoString.

(** ** Regular expressions, as [regexp.MustCompile] reads the three patterns

    Go matches code points of the UTF-8 text. The three patterns name
    ASCII characters only, besides the final [.] of the directive, and an
    ASCII byte never lies inside a longer UTF-8 sequence: matching byte by
    byte finds a match at the same offsets. *)

Module Regexp.

Inductive regex : Type :=
| Void : regex
| Eps : regex
| Class : (ascii → bool) → regex
| Cat : regex → regex → regex
| Alt : regex → regex → regex
| Star : regex → regex.

(** The words of a regular expression. *)
Inductive matches : regex → list ascii → Prop :=
| m_eps : matches Eps []
| m_class p c : p c = true → matches (Class p) [c]
| m_cat r1 r2 w1 w2 : matches r1 w1 → matches r2 w2 → matches (Cat r1 r2) (w1 ++ w2)
| m_alt_l r1 r2 w : matches r1 w → matches (Alt r1 r2) w
| m_alt_r r1 r2 w : matches r2 w → matches (Alt r1 r2) w
| m_star_nil r : matches (Star r) []
| m_star_cons r w1 w2 :
    matches r w1 → matches (Star r) w2 → matches (Star r) (w1 ++ w2).

Fixpoint nullable (r : regex) : bool :=
  match r with
  | Void => false
  | Eps => true
  | Class _ => false
  | Cat r1 r2 => nullable r1 && nullable r2
  | Alt r1 r2 => nullable r1 || nullable r2
  | Star _ => true
  end.

Fixpoint deriv (c : ascii) (r : regex) : regex :=
  match r with
  | Void => Void
  | Eps => Void
  | Class p => if p c then Eps else Void
  | Cat r1 r2 =>
      if nullable r1 then Alt (Cat (deriv c r1) r2) (deriv c r2)
      else Cat (deriv c r1) r2
  | Alt r1 r2 => Alt (deriv c r1) (deriv c r2)
  | Star r1 => Cat (deriv c r1) (Star r1)
  end.

(** Some prefix of [s] is a word of [r]: a match starts at the head of [s]. *)
Fixpoint matchesHere (r : regex) (s : list ascii) : bool :=
  nullable r ||
  match s with
  | [] => false
  | c :: s' => matchesHere (deriv c r) s'
  end.

(** The start of the leftmost match in [s], counted from [i]. *)
Fixpoint findFrom (r : regex) (i : Z) (s : list ascii) : option Z :=
  if matchesHere r s then Some i
  else match s with
       | [] => None
       | _ :: s' => findFrom r (i + 1) s'
       end.

(** [re.FindStringIndex(s)]: [nil] without a match, else [loc] of which
    the linter reads only [loc[0]], the start of the leftmost match. *)
Definition FindStringIndex (r : regex) (s : string) : option Z :=
  findFrom r 0 (GoString.bytes s).

(** [re.MatchString(s)]: the pattern matches somewhere in [s]. *)
Definition MatchString (r : regex) (s : string) : bool :=
  bool_decide (is_Some (FindStringIndex r s)).

(** A word of [r] starts at the head of [s]. *)
Definition matchAtHead (r : regex) (s : list ascii) : Prop :=
  ∃ w t, s = w ++ t ∧ matches r w.

(** Pattern syntax. *)
Definition Chr (c : ascii) : regex := Class (Ascii.eqb c).

Fixpoint lit (s : list ascii) : regex :=
  match s with
  | [] => Eps
  | c :: s' => Cat (Chr c) (lit s')
  end.

(** A literal string. *)
Definition Lit (s : string) : regex := lit (GoString.bytes s).

(** [p1|p2|...|pn], what [strings.Join(ps, "|")] spells. *)
Fixpoint alts (rs : list regex) : regex :=
  match rs with
  | [] => Void
  | [r] => r
  | r :: rs' => Alt r (alts rs')
  end.

(** [r+] *)
Definition Plus (r : regex) : regex := Cat r (Star r).

Definition inRange (lo hi : N) (c : ascii) : bool :=
  let n := N_of_ascii c in ((lo <=? n) && (n <=? hi))%N.

(** [[A-Z0-9]] *)
Definition upperOrDigit (c : ascii) : bool :=
  inRange 65 90 c || inRange 48 57 c.

(** [\w]: in Go's syntax the ASCII class [[0-9A-Za-z_]]. *)
Definition word (c : ascii) : bool :=
  inRange 48 57 c || inRange 65 90 c || inRange 97 122 c || Ascii.eqb c "_".

(** [.]: any character but the line feed. *)
Definition dot (c : ascii) : bool := negb (Ascii.eqb c "010").

End Regexp.

(** ** [unicode.IsPunct] on the Latin-1 range

    [checkEndsWithPunct] passes [rune(b)] for a byte [b], so only code
    points up to [MaxLatin1] reach [unicode.IsPunct]; there Go answers from
    its [properties] table, whose punctuation entries are listed here. *)

Module Unicode.

Definition latin1Punct : list Z :=
  [ 33; 34; 35; 37; 38; 39; 40; 41; 42; 44; 45; 46; 47; 58; 59; 63; 64;
    91; 92; 93; 95; 123; 125;
    161; 167; 171; 182; 183; 187; 191 ].

(** [unicode.IsPunct(r)] for [r <= MaxLatin1]; larger code points, which
    the linter never asks about, are left out of the table. *)
Definition IsPunct (r : Z) : bool := bool_decide (r ∈ latin1Punct).

(** The last character of a UTF-8 string whose last character is encoded
    in one or two bytes (code points up to U+07FF); [None] otherwise.
    The linter has no such decoder: this one reads the comment's last
    character the way the prose does, for comparison. *)
Definition lastChar (s : string) : option Z :=
  match reverse (GoString.bytes s) with
  | b0 :: rest =>
      let n0 := GoString.rune b0 in
      if n0 <? 128 then Some n0
      else if (128 <=? n0) && (n0 <? 192) then
        match rest with
        | b1 :: _ =>
            let n1 := GoString.rune b1 in
            if (192 <=? n1) && (n1 <? 224)
            then Some ((n1 - 192) * 64 + (n0 - 128))
            else None
        | [] => None
        end
      else None
  | [] => None
  end.

End Unicode.

(** ** The syntax tree, as [go/ast] hands it over *)

Module Ast.

(** [ast.Comment]: [Text] holds the comment with its [//] or [/*]. *)
Record Comment := { Text : string }.

(** [ast.CommentGroup] *)
Record CommentGroup := { List : list Comment }.

(** [ast.Expr]: the identifier and some of the other type expressions. *)
Inductive Expr :=
| Ident (Name : string)
| StarExpr (X : Expr)
| ArrayType (Elt : Expr)
| SelectorExpr (X : Expr) (Sel : string)
| FuncTypeExpr
| InterfaceType.

(** [ast.Field]: [Names] are the identifiers bound to [Type]. *)
Record Field := { Names : list string; FieldType : Expr }.

(** [ast.FuncType]: [Results] is [nil] (here [None]) for a function
    without results, else the [List] of an [ast.FieldList]. *)
Record FuncType := { Params : list Field; Results : option (list Field) }.

(** A function body, which no check opens. *)
Inductive BlockStmt := Block (stmts : list string).

(** [ast.FuncDecl]; [Pos] is the position [decl.Pos()] returns. *)
Record FuncDecl := {
  Doc : option CommentGroup;
  Name : string;
  DeclType : FuncType;
  Body : option BlockStmt;
  Pos : Z
}.

(** [ast.Decl] *)
Inductive Decl :=
| DFunc (d : FuncDecl)
| DGen (doc : option CommentGroup).

(** [ast.File]; [FileDoc] is its field [Doc], the package comment. *)
Record File := { FileDoc : option CommentGroup; Decls : list Decl }.

(** [ast.Package]; [Files] maps file names to files. *)
Record Package := { PkgName : string; Files : gmap string File }.

End Ast.

Import GoString Regexp Ast.

(** ** The linter *)

(** Go's [int], 64 bits wide. *)
Definition int_wrap (z : Z) : Z := (z + 2 ^ 63) mod 2 ^ 64 - 2 ^ 63.

(** One call [fmt.Fprintf(os.Stderr, format, args...)]. *)
Inductive output := Fprintf (format : string) (args : list Z).

(** The three compiled patterns of [linter.regexp]. *)
Record regexps := {
  predAntipattern : regex;
  predPrefix : regex;
  directive : regex
}.

(** [linter]: [fset] renders [l.fset.Position(pos).String()], [current]
    is [l.current.fn] and [regexp] the three patterns, both [nil] at
    first; [stderr] collects what was written, oldest first. *)
Record linter := {
  path : string;
  fset : Z → string;
  current : option FuncDecl;
  regexp : option regexps;
  issues : Z;
  stderr : list output
}.

Definition newLinter (path : string) (fset : Z → string) : linter :=
  {| path := path; fset := fset; current := None; regexp := None;
     issues := 0; stderr := [] |}.

Definition prefixes : list string := ["Has"; "Is"; "Contains"; "Can"].

Definition predPrefixPat : regex :=
  let prefixes := prefixes ++ map ToLower prefixes in
  Cat (alts (map Lit prefixes)) (Cat (Class upperOrDigit) (Star (Class word))).

Definition patterns : list string :=
  [ "returns true if"; "returns false if"; "returns true iff";
    "returns false iff"; "returns true for"; "returns false for";
    "returns true when"; "returns false when"; "tells whether";
    "tests whether"; "determines whether"; "indicates whether" ].

Definition predAntipatternPat : regex :=
  let patterns := map (λ p, " " +:+ p +:+ " ") patterns in
  alts (map Lit patterns).

(** [//\w+: .*] *)
Definition directivePat : regex :=
  Cat (Lit "//") (Cat (Plus (Class word)) (Cat (Lit ": ") (Star (Class dot)))).

(** The patterns [initRegexps] compiles. *)
Definition compiled : regexps :=
  {| predAntipattern := predAntipatternPat;
     predPrefix := predPrefixPat;
     directive := directivePat |}.

Definition initRegexps (l : linter) : linter :=
  {| path := path l; fset := fset l; current := current l;
     regexp := Some compiled;
     issues := issues l; stderr := stderr l |}.

(** [l.issues++] followed by the write to [os.Stderr]. *)
Definition report (format : string) (args : list Z) (l : linter) : linter :=
  {| path := path l; fset := fset l; current := current l; regexp := regexp l;
     issues := int_wrap (issues l + 1);
     stderr := stderr l ++ [Fprintf format args] |}.

Definition warnPkg (fileName format : string) (args : list Z) (l : linter)
  : option linter :=
  let anchor :=
    if String.eqb fileName EmptyString then path l +:+ ": " else fileName +:+ ": " in
  Some (report (anchor +:+ format +:+ LF) args l).

Definition warnFunc (format : string) (args : list Z) (l : linter)
  : option linter :=
  fn ← current l;
  let anchor := fset l (Pos fn) +:+ ": " in
  Some (report (anchor +:+ format +:+ LF) args l).

Definition ExitCode (l : linter) : Z :=
  if issues l =? 0 then 0 else 1.

Definition isBooleanFunc (decl : FuncDecl) : bool :=
  match Results (DeclType decl) with
  | None => false
  | Some results =>
      if negb (length results =? 1)%nat then false
      else match results !! 0%nat with
           | None => false
           | Some res =>
               if negb (length (Names res) =? 1)%nat then false
               else match FieldType res with
                    | Ident name => String.eqb name "bool"
                    | _ => false
                    end
           end
  end.

(** Step 1 of [checkBoolFuncStyle]: the phrases held less idiomatic. *)
Definition antipatternCheck (re : regexps) (line name : string) (l : linter)
  : option linter :=
  match FindStringIndex (predAntipattern re) line with
  | Some loc0 =>
      let diff := int_wrap (loc0 - len name) in
      if (1 <? diff) && (diff <=? 4)
      then warnFunc "bad predicate comment" [] l
      else Some l
  | None => Some l
  end.

(** Step 2 of [checkBoolFuncStyle]: the predicate guessed by its name. *)
Definition predPrefixCheck (re : regexps) (line name : string) (l : linter)
  : option linter :=
  if MatchString (predPrefix re) name then
    if negb (Contains line (name +:+ " reports whether "))
    then warnFunc "bad predicate comment" [] l
    else Some l
  else Some l.

Definition checkBoolFuncStyle (doc : CommentGroup) (l : linter) : option linter :=
  fn ← current l;
  if negb (isBooleanFunc fn) then Some l
  else
    c ← List doc !! 0%nat;
    let line := Text c in
    let name := Name fn in
    re ← regexp l;
    l ← antipatternCheck re line name l;
    predPrefixCheck re line name l.

Fixpoint checkNoMultiline_loop (cs : list Comment) (l : linter) : option linter :=
  match cs with
  | [] => Some l
  | c :: cs' =>
      if HasPrefix (Text c) "/*"
      then warnFunc "should not use /**/ comments in doc-comments" [] l
      else checkNoMultiline_loop cs' l
  end.

Definition checkNoMultiline (doc : CommentGroup) (l : linter) : option linter :=
  checkNoMultiline_loop (List doc) l.

Definition checkEndsWithPunct (doc : CommentGroup) (l : linter) : option linter :=
  if negb (length (List doc) =? 1)%nat then Some l
  else
    c ← List doc !! 0%nat;
    if negb (HasPrefix (Text c) "//") then Some l
    else
      let line := Text c in
      b ← lastByte line;
      if negb (Unicode.IsPunct (rune b))
      then warnFunc "doc-comment should end with punctuation, usually with period" [] l
      else Some l.

Fixpoint checkSpacing_loop (cs : list Comment) (l : linter) : option linter :=
  match cs with
  | [] => Some l
  | c :: cs' =>
      if HasPrefix (Text c) "/*" then checkSpacing_loop cs' l
      else
        re ← regexp l;
        if MatchString (directive re) (Text c) then checkSpacing_loop cs' l
        else if negb (HasPrefix (Text c) "// ") && negb (HasPrefix (Text c) ("//" +:+ TAB))
        then l ← warnFunc "found comment without leading space and it's not a pragma" [] l;
             checkSpacing_loop cs' l
        else checkSpacing_loop cs' l
  end.

Definition checkSpacing (doc : CommentGroup) (l : linter) : option linter :=
  checkSpacing_loop (List doc) l.

Definition setCurrent (decl : FuncDecl) (l : linter) : linter :=
  {| path := path l; fset := fset l; current := Some decl; regexp := regexp l;
     issues := issues l; stderr := stderr l |}.

(** The body of [CheckFile]'s loop for one declaration. *)
Definition checkDecl (decl : Decl) (l : linter) : option linter :=
  match decl with
  | DFunc decl =>
      match Doc decl with
      | Some doc =>
          let l := setCurrent decl l in
          l ← checkBoolFuncStyle doc l;
          l ← checkNoMultiline doc l;
          l ← checkEndsWithPunct doc l;
          checkSpacing doc l
      | None => Some l
      end
  | DGen _ => Some l
  end.

Fixpoint CheckFile_loop (decls : list Decl) (l : linter) : option linter :=
  match decls with
  | [] => Some l
  | decl :: decls' => l ← checkDecl decl l; CheckFile_loop decls' l
  end.

Definition CheckFile (f : File) (l : linter) : option linter :=
  CheckFile_loop (Decls f) l.

(** The first loop of [CheckPackage] over [pkg.Files], in the order
    [entries] in which the map's iteration yields them: the number of
    files with a package comment, the comment and the file seen last. *)
Definition scanDocs (entries : list (string * File))
  : Z * option CommentGroup * string :=
  foldl (λ '(count, doc, docFilename) '(filename, f),
           match FileDoc f with
           | Some d => (int_wrap (count + 1), Some d, filename)
           | None => (count, doc, docFilename)
           end)
        (0, None, EmptyString) entries.

Definition countLines (cs : list Comment) : Z :=
  foldl (λ lines c, int_wrap (lines + int_wrap (CountLF (Text c) + 1))) 0 cs.

(** [CheckPackage] for one iteration order of [pkg.Files]. *)
Definition CheckPackage_in (entries : list (string * File)) (pkgName : string)
    (l : linter) : option linter :=
  let '(count, doc, docFilename) := scanDocs entries in
  if count =? 1 then
    if negb (String.eqb pkgName "main") then
      d ← doc;
      let lines := countLines (List d) in
      if (100 <? lines) && negb (String.eqb docFilename "doc.go")
      then warnPkg docFilename "long doc-comments should go into doc.go file" [] l
      else Some l
    else Some l
  else if count =? 0 then warnPkg EmptyString "no doc-comment found" [] l
  else warnPkg EmptyString "found %d doc-comments, expected 1" [count] l.

Definition CheckPackage (pkg : Package) (l : linter) : option linter :=
  CheckPackage_in (map_to_list (Files pkg)) (PkgName pkg) l.

Fixpoint CheckFiles (fs : list File) (l : linter) : option linter :=
  match fs with
  | [] => Some l
  | f :: fs' => l ← CheckFile f l; CheckFiles fs' l
  end.

(** The loop of [main] over [packages] and over each [pkg.Files]. *)
Fixpoint checkAll (pkgs : list Package) (l : linter) : option linter :=
  match pkgs with
  | [] => Some l
  | pkg :: pkgs' =>
      l ← CheckPackage pkg l;
      l ← CheckFiles (map snd (map_to_list (Files pkg))) l;
      checkAll pkgs' l
  end.

(** [main] once the package has been parsed: the exit status. *)
Definition run (path : string) (fset : Z → string) (pkgs : list Package)
  : option Z :=
  l ← checkAll pkgs (initRegexps (newLinter path fset));
  Some (ExitCode l).

(** ** Vocabulary of the statements *)

(** [l] after the writes [outs], each counted as an issue. *)
Definition emit (outs : list output) (l : linter) : linter :=
  foldl (λ l o, match o with Fprintf format args => report format args l end)
        l outs.

(** The line [warnFunc] writes for [msg] while [fn] is the current function. *)
Definition funcFinding (l : linter) (fn : FuncDecl) (msg : string) : output :=
  Fprintf ((fset l (Pos fn) +:+ ": ") +:+ msg +:+ LF) [].

(** The anchor [warnPkg] chooses. *)
Definition pkgAnchor (l : linter) (fileName : string) : string :=
  if String.eqb fileName EmptyString then path l else fileName.

(** The line [warnPkg] writes for [msg] under [anchor]. *)
Definition pkgFinding (anchor msg : string) (args : list Z) : output :=
  Fprintf ((anchor +:+ ": ") +:+ msg +:+ LF) args.

(** [sub] occurs in [s] at byte offset [n]. *)
Definition occursAt (sub s : list ascii) (n : nat) : Prop :=
  ∃ t, drop n s = sub ++ t.

(** The eight prefixes [initRegexps] joins. *)
Definition allPrefixes : list string := prefixes ++ map ToLower prefixes.

(** One of the prefixes, followed by an upper-case letter or a digit,
    stands at offset [n] of [name]. *)
Definition predicatePrefixAt (name : list ascii) (n : nat) : Prop :=
  ∃ p c t, p ∈ allPrefixes ∧ upperOrDigit c = true ∧
           drop n name = bytes p ++ c :: t.

(** The name begins with one of the prefixes followed by an upper-case
    letter or a digit: the prefix pattern read as a prefix. *)
Definition beginsWithPredicatePrefix (name : string) : bool :=
  existsb (λ p, hasPrefix (bytes name) (bytes p) &&
                match drop (length (bytes p)) (bytes name) with
                | c :: _ => upperOrDigit c
                | [] => false
                end)
          allPrefixes.

(** One of the phrases, a space on either side, stands at offset [n]. *)
Definition antipatternAt (line : list ascii) (n : nat) : Prop :=
  ∃ p, p ∈ patterns ∧ occursAt (bytes (" " +:+ p +:+ " ")) line n.

(** [//], one or more word characters, a colon and a space stand at
    offset [n] of [s]. *)
Definition directiveAt (s : list ascii) (n : nat) : Prop :=
  ∃ id t, id ≠ [] ∧ Forall (λ c, word c = true) id ∧
          drop n s = bytes "//" ++ id ++ bytes ": " ++ t.

(** The comment has the shape of a directive from its first byte on. *)
Definition isDirective (text : string) : bool :=
  matchesHere directivePat (bytes text).

(** The lines [checkSpacing] reports: the directive pattern is searched
    for anywhere in the text. *)
Definition flaggedBySpacing (c : Comment) : bool :=
  negb (HasPrefix (Text c) "/*") && negb (MatchString directivePat (Text c)) &&
  negb (HasPrefix (Text c) "// ") && negb (HasPrefix (Text c) ("//" +:+ TAB)).

(** A line-comment that is no directive and starts with neither
    slash-slash-space nor slash-slash-tab. *)
Definition lacksLeadingSpace (c : Comment) : bool :=
  negb (HasPrefix (Text c) "/*") && negb (isDirective (Text c)) &&
  negb (HasPrefix (Text c) "// ") && negb (HasPrefix (Text c) ("//" +:+ TAB)).

Definition isBlockComment (c : Comment) : bool := HasPrefix (Text c) "/*".

(** Physical lines of a comment group: embedded line feeds plus one, summed. *)
Definition physicalLines (d : CommentGroup) : Z :=
  foldr (λ c n, (CountLF (Text c) + 1) + n) 0 (List d).

Definition hasDoc (e : string * File) : bool :=
  match FileDoc e.2 with Some _ => true | None => false end.

(** The files that carry a package comment, in iteration order. *)
Definition docFiles (entries : list (string * File)) : list (string * File) :=
  List.filter hasDoc entries.

(** What the parser guarantees of a comment group: it is not empty. *)
Definition docNonEmpty (d : Decl) : bool :=
  match d with
  | DFunc fd => match Doc fd with
                | Some doc => negb (length (List doc) =? 0)%nat
                | None => true
                end
  | DGen _ => true
  end.

Definition fileParsed (f : File) : bool := forallb docNonEmpty (Decls f).

Definition packageParsed (pkg : Package) : bool :=
  forallb (λ e, fileParsed e.2) (map_to_list (Files pkg)).

(** One call of [main]'s loops; [entries] is the order in which
    [CheckPackage] happens to iterate over the files. *)
Inductive call :=
| CallPackage (entries : list (string * File)) (name : string)
| CallFile (f : File).

Definition doCall (c : call) (l : linter) : option linter :=
  match c with
  | CallPackage entries name => CheckPackage_in entries name l
  | CallFile f => CheckFile f l
  end.

(** A sequence of calls, whatever the order of the maps was. *)
Fixpoint checkCalls (cs : list call) (l : linter) : option linter :=
  match cs with
  | [] => Some l
  | c :: cs' => l ← doCall c l; checkCalls cs' l
  end.

Definition callParsed (c : call) : bool :=
  match c with
  | CallPackage _ _ => true
  | CallFile f => fileParsed f
  end.

(** The calls [checkAll] makes for one package. *)
Definition callsOf (pkg : Package) : list call :=
  CallPackage (map_to_list (Files pkg)) (PkgName pkg)
  :: map CallFile (map snd (map_to_list (Files pkg))).

(** The issue counter agrees with the number of lines written. *)
Definition counted (l : linter) : Prop :=
  issues l = int_wrap (Z.of_nat (length (stderr l))).

(** ** Sample inputs *)

Module Sample.

Definition pos (p : Z) : string := "pkg/a.go:7:1".

Definition l0 : linter := initRegexps (newLinter "pkg" pos).

Definition okBool : FuncType :=
  {| Params := []; Results := Some [ {| Names := ["ok"]; FieldType := Ident "bool" |} ] |}.

Definition noResult : FuncType := {| Params := []; Results := None |}.

Definition line (text : string) : CommentGroup := {| List := [ {| Text := text |} ] |}.

Definition func (name : string) (ty : FuncType) (doc : CommentGroup) : FuncDecl :=
  {| Doc := Some doc; Name := name; DeclType := ty; Body := None; Pos := 42 |}.

(** [func ScanFile() (ok bool)], documented in plain words. *)
Definition scanFileDoc : CommentGroup := line "// ScanFile walks the file.".
Definition scanFile : FuncDecl := func "ScanFile" okBool scanFileDoc.

(** [func IsOK() (ok bool)], documented with one of the phrases. *)
Definition isOKDoc : CommentGroup := line "// IsOK returns true if x holds.".
Definition isOK : FuncDecl := func "IsOK" okBool isOKDoc.

(** [func HasFoo() (ok bool)], documented in the canonical way. *)
Definition hasFooDoc : CommentGroup := line "// HasFoo reports whether foo holds.".
Definition hasFoo : FuncDecl := func "HasFoo" okBool hasFooDoc.

(** A comment whose last character is U+00E1, bytes 195 161. *)
Definition olaText : string :=
  "// Ol" +:+ String "195"%char (String "161"%char EmptyString).
Definition olaDoc : CommentGroup := line olaText.
Definition ola : FuncDecl := func "Greet" noResult olaDoc.

(** Two lines without a leading space, the second with a directive
    shape further right. *)
Definition spacingDoc : CommentGroup :=
  {| List := [ {| Text := "//Run starts it" |};
               {| Text := "//see also //nolint: x" |} ] |}.
Definition spacing : FuncDecl := func "Run" noResult spacingDoc.

Definition plainSpacingDoc : CommentGroup :=
  {| List := [ {| Text := "//Run starts it" |};
               {| Text := "//nolint: x" |};
               {| Text := "// and stops it." |} ] |}.
Definition plainSpacing : FuncDecl := func "Run" noResult plainSpacingDoc.

Definition blockDoc : CommentGroup :=
  {| List := [ {| Text := "/* Run starts it. */" |}; {| Text := "/* More. */" |} ] |}.
Definition block : FuncDecl := func "Run" noResult blockDoc.

(** A package comment of [n] line-comments. *)
Definition longDoc (n : nat) : CommentGroup :=
  {| List := replicate n {| Text := "// Package pkg does things." |} |}.

Definition fileWith (doc : option CommentGroup) (decls : list Decl) : File :=
  {| FileDoc := doc; Decls := decls |}.

Definition longPkg : Package :=
  {| PkgName := "pkg";
     Files := {[ "pkg.go" := fileWith (Some (longDoc 101)) [];
                 "util.go" := fileWith None [] ]} |}.

Definition twoDocsPkg : Package :=
  {| PkgName := "pkg";
     Files := {[ "a.go" := fileWith (Some (longDoc 1)) [];
                 "b.go" := fileWith (Some (longDoc 1)) [] ]} |}.

Definition cleanPkg : Package :=
  {| PkgName := "pkg";
     Files := {[ "a.go" := fileWith (Some (longDoc 1)) [DFunc hasFoo] ]} |}.

End Sample.

(** ** Further vocabulary *)

(** The four messages [warnFunc] is called with. *)
Definition funcMessages : list string :=
  [ "bad predicate comment";
    "should not use /**/ comments in doc-comments";
    "doc-comment should end with punctuation, usually with period";
    "found comment without leading space and it's not a pragma" ].

(** A comment line [checkSpacing] lets pass: a block-comment, a line with
    the directive shape somewhere in it, or a line that starts with
    slash-slash-space or slash-slash-tab. *)
Definition spacingExempt (c : Comment) : Prop :=
  HasPrefix (Text c) "/*" = true
  ∨ (∃ n, directiveAt (bytes (Text c)) n)
  ∨ HasPrefix (Text c) "// " = true
  ∨ HasPrefix (Text c) ("//" +:+ TAB) = true.

(** The first words of the twelve phrases. *)
Definition firstWords : list string :=
  [ "returns"; "tells"; "tests"; "determines"; "indicates" ].

(** A declaration [CheckFile] passes over: no function, or a function
    without a comment. *)
Definition undocumented (d : Decl) : bool :=
  match d with
  | DFunc fd => match Doc fd with Some _ => false | None => true end
  | DGen _ => true
  end.

(** ** Further sample inputs *)

Module Inputs.

(** A [main] package whose only package comment is long. *)
Definition mainPkg : Package :=
  {| PkgName := "main";
     Files := {[ "main.go" := Sample.fileWith (Some (Sample.longDoc 101)) [] ]} |}.

(** A package without any package comment. *)
Definition barePkg : Package :=
  {| PkgName := "pkg";
     Files := {[ "a.go" := Sample.fileWith None [DFunc Sample.hasFoo] ]} |}.

(** A file of a general declaration with a comment and a function
    without one. *)
Definition quietFile : File :=
  Sample.fileWith None
    [ DGen (Some (Sample.line "//no space, no period"));
      DFunc {| Doc := None; Name := "IsOK"; DeclType := Sample.okBool;
               Body := None; Pos := 9 |} ].

(** A comment group without comments, which the parser never builds. *)
Definition emptyDoc : CommentGroup := {| List := [] |}.
Definition emptyDocFunc : FuncDecl := Sample.func "IsOK" Sample.okBool emptyDoc.

(** [func IsOK() (ok bool)] with a phrase right after the name. *)
Definition tellsDoc : CommentGroup := Sample.line "// IsOK tells whether x holds.".
Definition tells : FuncDecl := Sample.func "IsOK" Sample.okBool tellsDoc.

End Inputs.

(** ** Rendering, file names and the counter *)

Module Fmt.

(** [%d] of an [int]: the decimal digits, after a minus sign if negative. *)
Definition decimal (z : Z) : list ascii :=
  bytes (NilZero.string_of_int (Z.to_int z)).

(** What [fmt] appends for the arguments no verb has used. *)
Definition extra (args : list Z) : list ascii :=
  match args with
  | [] => []
  | a :: rest =>
      bytes "%!(EXTRA int=" ++ decimal a
      ++ concat (map (λ b, bytes ", int=" ++ decimal b) rest) ++ bytes ")"
  end.

(** [fmt.Sprintf(format, args...)] on [int] arguments for the verbs [%d]
    and [%%], with what [fmt] prints for a missing argument and for a
    format that ends in a percent sign; [None] for every other verb, flag
    or width, which are left out here. *)
Fixpoint sprintf (format : list ascii) (args : list Z) : option (list ascii) :=
  match format with
  | [] => Some (extra args)
  | c :: rest =>
      if Ascii.eqb c "%" then
        match rest with
        | [] => Some (bytes "%!(NOVERB)" ++ extra args)
        | v :: rest' =>
            if Ascii.eqb v "d" then
              match args with
              | a :: args' => (λ s, decimal a ++ s) <$> sprintf rest' args'
              | [] => (λ s, bytes "%!d(MISSING)" ++ s) <$> sprintf rest' []
              end
            else if Ascii.eqb v "%" then (λ s, v :: s) <$> sprintf rest' args
            else None
        end
      else (λ s, c :: s) <$> sprintf rest args
  end.

Definition Sprintf (format : string) (args : list Z) : option string :=
  String.string_of_list_ascii <$> sprintf (bytes format) args.

(** The text one call of [fmt.Fprintf] puts on [os.Stderr]. *)
Definition rendered (o : output) : option string :=
  match o with Fprintf format args => Sprintf format args end.

End Fmt.

(** The name of a file without its directories: what follows the last
    slash of a path that does not end in one. [parser.ParseDir] keys
    [pkg.Files] by the directory joined with this name. *)
Definition baseName (key : string) : string :=
  String.string_of_list_ascii
    (foldl (λ acc c, if Ascii.eqb c "/" then [] else acc ++ [c]) []
           (bytes key)).

(** The issue counter after [k] more findings. *)
Definition bump (k : nat) (i : Z) : Z := Nat.iter k (λ i, int_wrap (i + 1)) i.

(** The comments on which [checkSpacing] asks the directive pattern, and
    finds it, if at all, at their start. *)
Definition directiveAtStartOnly (c : Comment) : bool :=
  HasPrefix (Text c) "/*" || HasPrefix (Text c) "// "
  || HasPrefix (Text c) ("//" +:+ TAB)
  || Bool.eqb (MatchString directivePat (Text c)) (isDirective (Text c)).

Module Cases.

(** A package read from the directory [pkg]: its long package comment is
    in [doc.go], which the parser files under [pkg/doc.go]. *)
Definition docGoPkg : Package :=
  {| PkgName := "pkg";
     Files := {[ "pkg/doc.go" := Sample.fileWith (Some (Sample.longDoc 101)) [];
                 "pkg/util.go" := Sample.fileWith None [] ]} |}.

(** A linter started on the directory [a%d]. *)
Definition percent : linter := initRegexps (newLinter "a%d" Sample.pos).

(** A block-comment and a spaced line with a directive shape further
    right, and a line without the leading space. *)
Definition mixedDoc : CommentGroup :=
  {| List := [ {| Text := "/* see //nolint: x */" |};
               {| Text := "// See http://localhost: the port" |};
               {| Text := "//Run starts it" |} ] |}.
Definition mixed : FuncDecl := Sample.func "Run" Sample.noResult mixedDoc.

End Cases.

(** ** Proof steps *)

(** Replace a closed test by its value. *)
Ltac compute_term t :=
  let v := eval vm_compute in t in
  replace t with v by (vm_compute; reflexivity).

Ltac compute_search :=
  repeat match goal with
    | |- context [MatchString ?r ?s] => compute_term (MatchString r s)
    | |- context [FindStringIndex ?r ?s] => compute_term (FindStringIndex r s)
    | |- context [Contains ?s ?t] => compute_term (Contains s t)
    end.

(** Membership in a list of literals. *)
Ltac message_in :=
  repeat first [apply list_elem_of_here | apply list_elem_of_further].

(** * Properties *)

Module GoStringFacts.

Lemma hasPrefix_spec s p : hasPrefix s p = true ↔ ∃ t, s = p ++ t.
Proof.
  revert s. induction p as [|a p IH]; intros [|b s]; simpl.
  - split; [eauto | done].
  - split; [eauto | done].
  - split; [done | intros [t Ht]; discriminate].
  - rewrite andb_true_iff, Ascii.eqb_eq, IH. split.
    + intros [-> [t ->]]. eauto.
    + intros [t Ht]. injection Ht as -> ->. eauto.
Qed.

Lemma contains_spec s sub :
  contains s sub = true ↔ ∃ pre post, s = pre ++ sub ++ post.
Proof.
  induction s as [|b s IH]; cbn [contains].
  - rewrite orb_false_r, hasPrefix_spec. split.
    + intros [t Ht]. exists [], t. done.
    + intros (pre & post & H). destruct pre; [eauto | discriminate].
  - rewrite orb_true_iff, hasPrefix_spec, IH. split.
    + intros [[t Ht] | (pre & post & ->)].
      * exists [], t. done.
      * exists (b :: pre), post. done.
    + intros (pre & post & H). destruct pre as [|b' pre]; simpl in H.
      * left. eauto.
      * right. injection H as -> ->. eauto.
Qed.

Lemma count_nonneg s c : 0 ≤ count s c.
Proof. induction s as [|b s IH]; simpl; [lia | destruct (Ascii.eqb b c); lia]. Qed.

Lemma count_le_length s c : count s c ≤ Z.of_nat (length s).
Proof.
  induction s as [|b s IH]; simpl length; simpl count;
    [lia | destruct (Ascii.eqb b c); lia].
Qed.

Lemma bytes_app s t : bytes (s +:+ t) = bytes s ++ bytes t.
Proof. induction s as [|c s IH]; simpl; [done | by rewrite <- IH]. Qed.

Lemma rune_range b : 0 ≤ rune b < 256.
Proof. unfold rune. pose proof (N_ascii_bounded b). lia. Qed.

Lemma bytes_inj s t : bytes s = bytes t → s = t.
Proof.
  intros H. rewrite <- (String.string_of_list_ascii_of_string s),
    <- (String.string_of_list_ascii_of_string t). unfold bytes in H. by rewrite H.
Qed.

End GoStringFacts.

Module RegexpFacts.
Import GoStringFacts.

Lemma nullable_spec r : nullable r = true ↔ matches r [].
Proof.
  induction r as [| |p|r1 IH1 r2 IH2|r1 IH1 r2 IH2|r IH]; simpl.
  - split; [done | inversion 1].
  - split; [constructor | done].
  - split; [done | inversion 1].
  - rewrite andb_true_iff, IH1, IH2. split.
    + intros [H1 H2]. apply (m_cat _ _ [] []); done.
    + inversion 1 as [| |? ? w1 w2 H1 H2 E1 E2| | | |]; subst.
      apply app_eq_nil in E2 as [-> ->]. done.
  - rewrite orb_true_iff, IH1, IH2. split.
    + intros [H|H]; [by apply m_alt_l | by apply m_alt_r].
    + inversion 1; subst; auto.
  - split; [constructor | done].
Qed.

Lemma star_cons_inv r c w :
  matches (Star r) (c :: w) →
  ∃ w1 w2, w = w1 ++ w2 ∧ matches r (c :: w1) ∧ matches (Star r) w2.
Proof.
  remember (Star r) as r' eqn:Er. remember (c :: w) as cw eqn:Ew. intros H.
  revert w Ew.
  induction H as [| | | | | |r0 w1 w2 H1 _ H2 IH2]; intros w' Ew; try discriminate.
  injection Er as ->. destruct w1 as [|c1 w1]; simpl in Ew.
  - apply IH2; done.
  - injection Ew as -> <-. eauto.
Qed.

Lemma deriv_spec c r w : matches (deriv c r) w ↔ matches r (c :: w).
Proof.
  revert w. induction r as [| |p|r1 IH1 r2 IH2|r1 IH1 r2 IH2|r IH]; intros w; simpl.
  - split; inversion 1.
  - split; inversion 1.
  - destruct (p c) eqn:Hp.
    + split; inversion 1; subst; [by constructor | constructor].
    + split; inversion 1; subst; congruence.
  - assert (Hcat : matches (Cat (deriv c r1) r2) w ↔
                   ∃ w1 w2, w = w1 ++ w2 ∧ matches r1 (c :: w1) ∧ matches r2 w2).
    { split.
      - inversion 1; subst. eexists _, _. split; [done|]. by rewrite <- IH1.
      - intros (w1 & w2 & -> & H1 & H2). constructor; [by apply IH1 | done]. }
    assert (Hinv : matches (Cat r1 r2) (c :: w) ↔
              (∃ w1 w2, w = w1 ++ w2 ∧ matches r1 (c :: w1) ∧ matches r2 w2)
              ∨ (matches r1 [] ∧ matches r2 (c :: w))).
    { split.
      - inversion 1 as [| |? ? w1 w2 H1 H2 E1 E2| | | |]; subst.
        destruct w1 as [|c1 w1]; simpl in E2.
        + right. subst. done.
        + left. injection E2 as -> <-. eauto.
      - intros [(w1 & w2 & -> & H1 & H2) | [H1 H2]].
        + apply (m_cat _ _ (c :: w1) w2); done.
        + apply (m_cat _ _ [] (c :: w)); done. }
    rewrite Hinv. destruct (nullable r1) eqn:Hn.
    + apply nullable_spec in Hn. split.
      * inversion 1; subst; [left; by apply Hcat | right; split; [done | by apply IH2]].
      * intros [H | [_ H]]; [apply m_alt_l; by apply Hcat | apply m_alt_r; by apply IH2].
    + rewrite Hcat. split; [auto|]. intros [H | [H _]]; [done|].
      apply nullable_spec in H. congruence.
  - split.
    + inversion 1; subst; [apply m_alt_l; by apply IH1 | apply m_alt_r; by apply IH2].
    + inversion 1; subst; [apply m_alt_l; by apply IH1 | apply m_alt_r; by apply IH2].
  - split.
    + inversion 1; subst. apply (m_star_cons _ (c :: _)); [by apply IH | done].
    + intros (w1 & w2 & -> & H1 & H2)%star_cons_inv. constructor; [by apply IH | done].
Qed.

Lemma matchesHere_spec r s : matchesHere r s = true ↔ matchAtHead r s.
Proof.
  revert r. induction s as [|c s IH]; intros r; simpl.
  - rewrite orb_false_r, nullable_spec. split.
    + intros H. exists [], []. done.
    + intros (w & t & E & H). symmetry in E. apply app_eq_nil in E as [-> ->]. done.
  - rewrite orb_true_iff, nullable_spec, IH. split.
    + intros [H | (w & t & -> & H)].
      * exists [], (c :: s). done.
      * exists (c :: w), t. split; [done | by apply deriv_spec].
    + intros (w & t & E & H). destruct w as [|c' w]; simpl in E.
      * by left.
      * right. injection E as -> ->. exists w, t. split; [done | by apply deriv_spec].
Qed.

Lemma findFrom_None r i s :
  findFrom r i s = None ↔ ∀ n, (n ≤ length s)%nat → ¬ matchAtHead r (drop n s).
Proof.
  revert i. induction s as [|c s IH]; intros i; cbn [findFrom].
  - destruct (matchesHere r []) eqn:E.
    + split; [done|]. intros H. exfalso. apply (H 0%nat); [lia|].
      by apply matchesHere_spec.
    + split; [|done]. intros _ n Hn. rewrite drop_nil.
      rewrite <- matchesHere_spec. congruence.
  - destruct (matchesHere r (c :: s)) eqn:E.
    + split; [done|]. intros H. exfalso. apply (H 0%nat); [lia|].
      by apply matchesHere_spec.
    + rewrite IH. split.
      * intros H [|n] Hn; cbn [drop length] in *.
        -- rewrite <- matchesHere_spec. congruence.
        -- apply H. lia.
      * intros H n Hn. apply (H (S n)). simpl. lia.
Qed.

Lemma findFrom_Some r i s k :
  findFrom r i s = Some k ↔
  ∃ n, k = i + Z.of_nat n ∧ (n ≤ length s)%nat ∧ matchAtHead r (drop n s) ∧
       ∀ m, (m < n)%nat → ¬ matchAtHead r (drop m s).
Proof.
  revert i. induction s as [|c s IH]; intros i; cbn [findFrom].
  - destruct (matchesHere r []) eqn:E.
    + apply matchesHere_spec in E. split.
      * intros [= <-]. exists 0%nat. repeat split; [lia | done | done | lia].
      * intros (n & -> & Hn & _). f_equal. cbn [length] in Hn. lia.
    + split; [done|]. intros (n & _ & Hn & H & _). rewrite drop_nil in H.
      apply matchesHere_spec in H. congruence.
  - destruct (matchesHere r (c :: s)) eqn:E.
    + apply matchesHere_spec in E. split.
      * intros [= <-]. exists 0%nat. repeat split; [lia | cbn [length]; lia | done | lia].
      * intros (n & -> & _ & _ & Hmin). destruct n as [|n]; [f_equal; lia|].
        exfalso. apply (Hmin 0%nat); [lia | done].
    + rewrite IH. split.
      * intros (n & -> & Hn & H & Hmin). exists (S n).
        repeat split; [lia | cbn [length]; lia | done |].
        intros [|m] Hm; cbn [drop].
        -- rewrite <- matchesHere_spec. congruence.
        -- apply Hmin. lia.
      * intros (n & -> & Hn & H & Hmin). destruct n as [|n]; cbn [drop length] in *.
        { apply matchesHere_spec in H. congruence. }
        exists n. repeat split; [lia | lia | done |].
        intros m Hm. apply (Hmin (S m)). lia.
Qed.

Lemma lit_spec s w : matches (lit s) w ↔ w = s.
Proof.
  revert w. induction s as [|c s IH]; intros w; simpl.
  - split; [by inversion 1 | intros ->; constructor].
  - split.
    + inversion 1 as [| |? ? w1 w2 H1 H2| | | |]; subst.
      inversion H1 as [|p c' Hc| | | | |]; subst.
      apply Ascii.eqb_eq in Hc as ->. apply IH in H2 as ->. done.
    + intros ->. apply (m_cat _ _ [c] s); [|by apply IH].
      constructor. by apply Ascii.eqb_eq.
Qed.

Lemma alts_spec rs w : matches (alts rs) w ↔ ∃ r, r ∈ rs ∧ matches r w.
Proof.
  induction rs as [|r rs IH]; simpl.
  - split; [inversion 1 | intros (r & Hr & _); by apply elem_of_nil in Hr].
  - destruct rs as [|r' rs].
    + split.
      * intros H. exists r. split; [constructor | done].
      * intros (r0 & Hr & H). apply list_elem_of_singleton in Hr as ->. done.
    + split.
      * inversion 1; subst.
        -- exists r. split; [constructor | done].
        -- apply IH in H3 as (r0 & Hr & H0). exists r0. split; [by constructor | done].
      * intros (r0 & Hr & H0). apply elem_of_cons in Hr as [-> | Hr].
        -- by apply m_alt_l.
        -- apply m_alt_r, IH. eauto.
Qed.

Lemma star_class_spec p w : matches (Star (Class p)) w ↔ Forall (λ c, p c = true) w.
Proof.
  split.
  - intros H. remember (Star (Class p)) as r eqn:Er.
    induction H as [| | | | | |r0 w1 w2 H1 _ H2 IH2]; try discriminate; [constructor|].
    injection Er as ->. inversion H1; subst. constructor; [done | by apply IH2].
  - induction 1 as [|c w Hc _ IH]; [constructor|].
    apply (m_star_cons _ [c] w); [by constructor | done].
Qed.

End RegexpFacts.

Module PatternFacts.
Import GoStringFacts RegexpFacts.

Lemma matchAtHead_nullable r s : nullable r = true → matchAtHead r s.
Proof. intros H. exists [], s. split; [done | by apply nullable_spec]. Qed.

Lemma matchAtHead_cat r1 r2 s :
  matchAtHead (Cat r1 r2) s ↔
  ∃ w t, s = w ++ t ∧ matches r1 w ∧ matchAtHead r2 t.
Proof.
  split.
  - intros (w & t & -> & H). inversion H as [| |? ? w1 w2 H1 H2| | | |]; subst.
    exists w1, (w2 ++ t). split; [by rewrite app_assoc|]. split; [done|].
    by exists w2, t.
  - intros (w1 & t & -> & H1 & w2 & t' & -> & H2).
    exists (w1 ++ w2), t'. split; [by rewrite app_assoc | by constructor].
Qed.

Lemma matchAtHead_lit p s : matchAtHead (lit p) s ↔ ∃ t, s = p ++ t.
Proof.
  split.
  - intros (w & t & -> & ->%lit_spec). eauto.
  - intros [t ->]. exists p, t. split; [done | by apply lit_spec].
Qed.

Lemma matches_alts_lit ps w :
  matches (alts (map Lit ps)) w ↔ ∃ p, p ∈ ps ∧ w = bytes p.
Proof.
  rewrite alts_spec. split.
  - intros (r & (p & -> & Hp)%list_elem_of_fmap & H%lit_spec). eauto.
  - intros (p & Hp & ->). exists (Lit p). split; [|by apply lit_spec].
    apply list_elem_of_fmap. eauto.
Qed.

Lemma matchAtHead_class_star p q s :
  matchAtHead (Cat (Class p) (Star q)) s ↔ ∃ c t, p c = true ∧ s = c :: t.
Proof.
  rewrite matchAtHead_cat. split.
  - intros (w & t & -> & H & _). inversion H; subst. eauto.
  - intros (c & t & Hc & ->). exists [c], t.
    split; [done|]. split; [by constructor | by apply matchAtHead_nullable].
Qed.

Lemma matches_plus_class p w :
  matches (Plus (Class p)) w ↔ w ≠ [] ∧ Forall (λ c, p c = true) w.
Proof.
  unfold Plus. split.
  - inversion 1 as [| |? ? w1 w2 H1 H2| | | |]; subst. inversion H1; subst.
    split; [done|]. constructor; [done | by apply star_class_spec].
  - intros [Hne Hall]. destruct Hall as [|c w Hc Hall]; [done|].
    apply (m_cat _ _ [c] w); [by constructor | by apply star_class_spec].
Qed.

(** The prefix pattern at the head of [s]. *)
Lemma matchAtHead_predPrefix s :
  matchAtHead predPrefixPat s ↔ predicatePrefixAt s 0.
Proof.
  unfold predPrefixPat, predicatePrefixAt. rewrite matchAtHead_cat. cbn [drop].
  split.
  - intros (w & t & -> & (p & Hp & ->)%matches_alts_lit &
            (c & t' & Hc & ->)%matchAtHead_class_star).
    exists p, c, t'. done.
  - intros (p & c & t & Hp & Hc & E). change (s = bytes p ++ c :: t) in E.
    subst s. exists (bytes p), (c :: t).
    split; [done|]. split.
    + apply matches_alts_lit. eauto.
    + apply matchAtHead_class_star. eauto.
Qed.

(** The antipattern at the head of [s]. *)
Lemma matchAtHead_predAntipattern s :
  matchAtHead predAntipatternPat s ↔ antipatternAt s 0.
Proof.
  unfold predAntipatternPat, antipatternAt, occursAt. cbn [drop]. split.
  - intros (w & t & -> & (q & (p & -> & Hp)%list_elem_of_fmap & ->)%matches_alts_lit).
    eauto.
  - intros (p & Hp & t & E). change (drop 0 s) with s in E. subst s.
    eexists _, t. split; [done|].
    apply matches_alts_lit. eexists. split; [|done].
    apply list_elem_of_fmap. eauto.
Qed.

(** The directive pattern at the head of [s]. *)
Lemma matchAtHead_directive s :
  matchAtHead directivePat s ↔ directiveAt s 0.
Proof.
  unfold directivePat, directiveAt. cbn [drop].
  rewrite matchAtHead_cat. split.
  - intros (w & t & -> & ->%lit_spec & H).
    apply matchAtHead_cat in H as (id & t2 & -> & [Hne Hid]%matches_plus_class & H).
    apply matchAtHead_cat in H as (w3 & t3 & -> & ->%lit_spec & _).
    exists id, t3. done.
  - intros (id & t & Hne & Hid & E). change (drop 0 s) with s in E. subst s.
    exists (bytes "//"), (id ++ bytes ": " ++ t).
    split; [done|]. split; [by apply lit_spec|].
    apply matchAtHead_cat. exists id, (bytes ": " ++ t).
    split; [done|]. split; [by apply matches_plus_class|].
    apply matchAtHead_cat. exists (bytes ": "), t.
    split; [done|]. split; [by apply lit_spec | by apply matchAtHead_nullable].
Qed.

Lemma drop_drop_0 {A} (s : list A) n : drop 0 (drop n s) = drop n s.
Proof. done. Qed.

Lemma predicatePrefixAt_drop s n :
  predicatePrefixAt (drop n s) 0 ↔ predicatePrefixAt s n.
Proof. done. Qed.

Lemma MatchString_spec r s :
  MatchString r s = true ↔ ∃ n, (n ≤ length (bytes s))%nat ∧ matchAtHead r (drop n (bytes s)).
Proof.
  unfold MatchString, FindStringIndex. rewrite bool_decide_eq_true. split.
  - intros [k (n & _ & Hn & H & _)%findFrom_Some]. eauto.
  - intros (n & Hn & H). destruct (findFrom r 0 (bytes s)) as [k|] eqn:E; [eauto|].
    exfalso. eapply findFrom_None; eauto.
Qed.

Lemma FindStringIndex_Some r s k :
  FindStringIndex r s = Some k ↔
  ∃ n, k = Z.of_nat n ∧ (n ≤ length (bytes s))%nat ∧
       matchAtHead r (drop n (bytes s)) ∧
       ∀ m, (m < n)%nat → ¬ matchAtHead r (drop m (bytes s)).
Proof.
  unfold FindStringIndex. rewrite findFrom_Some.
  split; intros (n & -> & H); exists n; (split; [lia | done]).
Qed.

Lemma FindStringIndex_None r s :
  FindStringIndex r s = None ↔ ∀ n, ¬ matchAtHead r (drop n (bytes s)).
Proof.
  unfold FindStringIndex. rewrite findFrom_None. split.
  - intros H n. destruct (decide (n ≤ length (bytes s))%nat) as [Hn|Hn]; [by apply H|].
    rewrite drop_ge by lia. rewrite <- (drop_all (bytes s)). apply H. lia.
  - intros H n _. apply H.
Qed.

Lemma FindStringIndex_bounds r s k :
  FindStringIndex r s = Some k → 0 ≤ k ≤ len s.
Proof. intros (n & -> & Hn & _)%FindStringIndex_Some. unfold len. lia. Qed.

(** [predPrefix.MatchString(name)] finds the prefix anywhere in the name. *)
Lemma MatchString_predPrefix name :
  MatchString predPrefixPat name = true ↔ ∃ n, predicatePrefixAt (bytes name) n.
Proof.
  rewrite MatchString_spec. split.
  - intros (n & _ & H%matchAtHead_predPrefix). eauto.
  - intros [n H]. exists n. split; [|by apply matchAtHead_predPrefix].
    destruct H as (p & c & t & _ & _ & E).
    destruct (decide (n ≤ length (bytes name))%nat); [done|].
    rewrite drop_ge in E by lia. by destruct (bytes p).
Qed.

(** [predAntipattern.FindStringIndex(line)] is the leftmost phrase. *)
Lemma FindStringIndex_predAntipattern line k :
  FindStringIndex predAntipatternPat line = Some k ↔
  ∃ n, k = Z.of_nat n ∧ antipatternAt (bytes line) n ∧
       ∀ m, (m < n)%nat → ¬ antipatternAt (bytes line) m.
Proof.
  rewrite FindStringIndex_Some. split.
  - intros (n & -> & _ & H & Hmin). exists n. split; [done|]. split.
    + by apply matchAtHead_predAntipattern in H.
    + intros m Hm Hat. apply (Hmin m Hm). by apply matchAtHead_predAntipattern.
  - intros (n & -> & H & Hmin). exists n. split; [done|]. split; [|split].
    + destruct H as (p & _ & t & E).
      destruct (decide (n ≤ length (bytes line))%nat); [done|].
      rewrite drop_ge in E by lia. discriminate.
    + by apply matchAtHead_predAntipattern.
    + intros m Hm Hat%matchAtHead_predAntipattern. by apply (Hmin m Hm).
Qed.

Lemma FindStringIndex_predAntipattern_None line :
  FindStringIndex predAntipatternPat line = None ↔
  ∀ n, ¬ antipatternAt (bytes line) n.
Proof.
  rewrite FindStringIndex_None. split.
  - intros H n Hat. apply (H n). by apply matchAtHead_predAntipattern.
  - intros H n Hat%matchAtHead_predAntipattern. by apply (H n).
Qed.

(** [directive.MatchString(text)] finds the shape anywhere in the text. *)
Lemma MatchString_directive text :
  MatchString directivePat text = true ↔ ∃ n, directiveAt (bytes text) n.
Proof.
  rewrite MatchString_spec. split.
  - intros (n & _ & H%matchAtHead_directive). eauto.
  - intros [n H]. exists n. split; [|by apply matchAtHead_directive].
    destruct H as (id & t & _ & _ & E).
    destruct (decide (n ≤ length (bytes text))%nat); [done|].
    rewrite drop_ge in E by lia. discriminate.
Qed.

Lemma isDirective_spec text :
  isDirective text = true ↔ directiveAt (bytes text) 0.
Proof.
  unfold isDirective. by rewrite matchesHere_spec, matchAtHead_directive.
Qed.

Lemma isDirective_MatchString text :
  isDirective text = true → MatchString directivePat text = true.
Proof.
  rewrite isDirective_spec, MatchString_directive. eauto.
Qed.

Lemma beginsWithPredicatePrefix_spec name :
  beginsWithPredicatePrefix name = true ↔ predicatePrefixAt (bytes name) 0.
Proof.
  unfold beginsWithPredicatePrefix, predicatePrefixAt. cbn [drop].
  rewrite existsb_exists. split.
  - intros (p & Hp%list_elem_of_In & [[t Ht]%hasPrefix_spec Hc]%andb_true_iff).
    rewrite Ht, drop_app_length in Hc. destruct t as [|c t]; [done|].
    exists p, c, t. done.
  - intros (p & c & t & Hp & Hc & E). change (drop 0 (bytes name)) with (bytes name) in E.
    exists p. split; [by apply list_elem_of_In|].
    apply andb_true_iff. split; [apply hasPrefix_spec; eauto|].
    by rewrite E, drop_app_length.
Qed.

Lemma beginsWithPredicatePrefix_MatchString name :
  beginsWithPredicatePrefix name = true → MatchString predPrefixPat name = true.
Proof.
  rewrite beginsWithPredicatePrefix_spec, MatchString_predPrefix. eauto.
Qed.

End PatternFacts.

Module LinterFacts.
Import GoStringFacts RegexpFacts PatternFacts.

Lemma int_wrap_small z : - 2 ^ 63 ≤ z < 2 ^ 63 → int_wrap z = z.
Proof. intros H. unfold int_wrap. rewrite Z.mod_small; lia. Qed.

Lemma int_wrap_range z : - 2 ^ 63 ≤ int_wrap z < 2 ^ 63.
Proof.
  unfold int_wrap. pose proof (Z.mod_pos_bound (z + 2 ^ 63) (2 ^ 64)). lia.
Qed.

Lemma int_wrap_add_l a b : int_wrap (int_wrap a + b) = int_wrap (a + b).
Proof.
  unfold int_wrap.
  replace ((a + 2 ^ 63) mod 2 ^ 64 - 2 ^ 63 + b + 2 ^ 63)
    with ((a + 2 ^ 63) mod 2 ^ 64 + b) by lia.
  rewrite Zplus_mod_idemp_l. do 2 f_equal. lia.
Qed.

Lemma int_wrap_add_r a b : int_wrap (a + int_wrap b) = int_wrap (a + b).
Proof. by rewrite Z.add_comm, int_wrap_add_l, Z.add_comm. Qed.

Lemma int_wrap_zero_iff z : 0 ≤ z < 2 ^ 64 → (int_wrap z = 0 ↔ z = 0).
Proof.
  intros Hz. unfold int_wrap. split; [|intros ->; done].
  intros H. destruct (decide (z < 2 ^ 63)) as [Hlt|Hge].
  - rewrite Z.mod_small in H; lia.
  - replace (z + 2 ^ 63) with (z - 2 ^ 63 + 1 * 2 ^ 64) in H by lia.
    rewrite Z_mod_plus_full, Z.mod_small in H; lia.
Qed.

(** *** The state after some writes *)

Lemma emit_cons o outs l :
  emit (o :: outs) l =
  emit outs (match o with Fprintf format args => report format args l end).
Proof. done. Qed.

Lemma emit_app a b l : emit (a ++ b) l = emit b (emit a l).
Proof. unfold emit. by rewrite foldl_app. Qed.

Lemma stderr_emit outs l : stderr (emit outs l) = stderr l ++ outs.
Proof.
  revert l. induction outs as [|[f a] outs IH]; intros l.
  - by rewrite app_nil_r.
  - rewrite emit_cons, IH. simpl. by rewrite <- app_assoc.
Qed.

Lemma current_emit outs l : current (emit outs l) = current l.
Proof.
  revert l. induction outs as [|[f a] outs IH]; intros l; [done|].
  by rewrite emit_cons, IH.
Qed.

Lemma regexp_emit outs l : regexp (emit outs l) = regexp l.
Proof.
  revert l. induction outs as [|[f a] outs IH]; intros l; [done|].
  by rewrite emit_cons, IH.
Qed.

Lemma fset_emit outs l : fset (emit outs l) = fset l.
Proof.
  revert l. induction outs as [|[f a] outs IH]; intros l; [done|].
  by rewrite emit_cons, IH.
Qed.

Lemma path_emit outs l : path (emit outs l) = path l.
Proof.
  revert l. induction outs as [|[f a] outs IH]; intros l; [done|].
  by rewrite emit_cons, IH.
Qed.

Lemma issues_emit outs l :
  int_wrap (issues (emit outs l)) = int_wrap (issues l + Z.of_nat (length outs)).
Proof.
  revert l. induction outs as [|[f a] outs IH]; intros l.
  - simpl. by rewrite Z.add_0_r.
  - rewrite emit_cons, IH. cbn [report issues length].
    rewrite int_wrap_add_l. f_equal. lia.
Qed.

Lemma funcFinding_emit outs l fn msg :
  funcFinding (emit outs l) fn msg = funcFinding l fn msg.
Proof. unfold funcFinding. by rewrite fset_emit. Qed.

Lemma pkgAnchor_emit outs l name : pkgAnchor (emit outs l) name = pkgAnchor l name.
Proof. unfold pkgAnchor. by rewrite path_emit. Qed.

Lemma counted_emit outs l : counted l → counted (emit outs l).
Proof.
  unfold counted. revert l. induction outs as [|[f a] outs IH]; intros l H; [done|].
  rewrite emit_cons. apply IH. cbn [report issues stderr].
  rewrite H, int_wrap_add_l, length_app. f_equal. simpl. lia.
Qed.

Lemma counted_setCurrent fn l : counted l → counted (setCurrent fn l).
Proof. done. Qed.

Lemma warnFunc_emit l fn msg :
  current l = Some fn →
  warnFunc msg [] l = Some (emit [funcFinding l fn msg] l).
Proof. intros H. unfold warnFunc. by rewrite H. Qed.

Lemma warnPkg_emit l fileName msg args :
  warnPkg fileName msg args l =
  Some (emit [pkgFinding (pkgAnchor l fileName) msg args] l).
Proof. unfold warnPkg, pkgFinding, pkgAnchor. by destruct (String.eqb fileName EmptyString). Qed.

(** *** The four checks of a documented function *)

Lemma antipatternCheck_emits l fn line name :
  current l = Some fn →
  ∃ a, (a = [] ∨ a = [funcFinding l fn "bad predicate comment"]) ∧
       antipatternCheck compiled line name l = Some (emit a l).
Proof.
  intros H. unfold antipatternCheck.
  destruct (FindStringIndex _ line) as [loc0|]; [|exists []; auto].
  cbv zeta. destruct (_ && _); [|exists []; auto].
  eexists. split; [by right|]. by apply warnFunc_emit.
Qed.

Lemma predPrefixCheck_spec l fn line name :
  current l = Some fn →
  predPrefixCheck compiled line name l =
  Some (if MatchString predPrefixPat name &&
           negb (Contains line (name +:+ " reports whether "))
        then emit [funcFinding l fn "bad predicate comment"] l else l).
Proof.
  intros H. unfold predPrefixCheck. cbn [predPrefix compiled].
  destruct (MatchString predPrefixPat name); [|done].
  destruct (Contains _ _); [done|]. by apply warnFunc_emit.
Qed.

Lemma predPrefixCheck_emits l fn line name :
  current l = Some fn →
  ∃ a, (a = [] ∨ a = [funcFinding l fn "bad predicate comment"]) ∧
       predPrefixCheck compiled line name l = Some (emit a l).
Proof.
  intros H. rewrite (predPrefixCheck_spec l fn) by done.
  destruct (_ && _); [eexists; split; [by right | done] | exists []; auto].
Qed.

Lemma checkBoolFuncStyle_steps l fn doc c :
  current l = Some fn → regexp l = Some compiled →
  isBooleanFunc fn = true → List doc !! 0%nat = Some c →
  checkBoolFuncStyle doc l =
  antipatternCheck compiled (Text c) (Name fn) l
    ≫= predPrefixCheck compiled (Text c) (Name fn).
Proof.
  intros Hc Hr Hb Hd. unfold checkBoolFuncStyle. rewrite Hc. simpl.
  rewrite Hb, Hd. simpl. by rewrite Hr.
Qed.

Lemma checkBoolFuncStyle_not_predicate l fn doc :
  current l = Some fn → isBooleanFunc fn = false →
  checkBoolFuncStyle doc l = Some l.
Proof. intros Hc Hb. unfold checkBoolFuncStyle. rewrite Hc. simpl. by rewrite Hb. Qed.

Lemma checkNoMultiline_spec l fn doc :
  current l = Some fn →
  checkNoMultiline doc l =
  Some (if existsb isBlockComment (List doc)
        then emit [funcFinding l fn "should not use /**/ comments in doc-comments"] l
        else l).
Proof.
  intros H. unfold checkNoMultiline. induction (List doc) as [|c cs IH]; [done|].
  cbn [checkNoMultiline_loop existsb]. unfold isBlockComment at 1.
  destruct (HasPrefix (Text c) "/*"); [by apply warnFunc_emit | done].
Qed.

Lemma HasPrefix_lastByte s :
  HasPrefix s "//" = true → is_Some (lastByte s).
Proof.
  unfold HasPrefix, lastByte. intros [t Ht]%hasPrefix_spec. rewrite Ht.
  change (bytes "//" ++ t) with ("/"%char :: "/"%char :: t).
  destruct (last ("/"%char :: "/"%char :: t)) eqn:E; [eauto|].
  by apply last_None in E.
Qed.

Lemma checkEndsWithPunct_single l fn doc c b :
  current l = Some fn → List doc = [c] →
  HasPrefix (Text c) "//" = true → lastByte (Text c) = Some b →
  checkEndsWithPunct doc l =
  Some (if Unicode.IsPunct (rune b) then l
        else emit [funcFinding l fn
               "doc-comment should end with punctuation, usually with period"] l).
Proof.
  intros Hc Hd Hp Hb. unfold checkEndsWithPunct. rewrite Hd. simpl.
  rewrite Hp. simpl. rewrite Hb. simpl.
  destruct (Unicode.IsPunct (rune b)); [done | by apply warnFunc_emit].
Qed.

Lemma checkEndsWithPunct_exempt l doc :
  (length (List doc) ≠ 1%nat ∨
   ∃ c, List doc !! 0%nat = Some c ∧ HasPrefix (Text c) "//" = false) →
  checkEndsWithPunct doc l = Some l.
Proof.
  unfold checkEndsWithPunct. intros [H | (c & Hc & Hp)].
  - apply Nat.eqb_neq in H. by rewrite H.
  - destruct (_ =? _)%nat; [|done]. simpl. rewrite Hc. simpl. by rewrite Hp.
Qed.

Lemma checkEndsWithPunct_emits l fn doc :
  current l = Some fn →
  ∃ a, checkEndsWithPunct doc l = Some (emit a l).
Proof.
  intros H. destruct (List doc) as [|c [|c' cs]] eqn:E.
  - exists []. apply checkEndsWithPunct_exempt. left. by rewrite E.
  - destruct (HasPrefix (Text c) "//") eqn:Hp.
    + destruct (HasPrefix_lastByte _ Hp) as [b Hb].
      rewrite (checkEndsWithPunct_single l fn doc c b) by done.
      destruct (Unicode.IsPunct _); [by exists [] | by eexists].
    + exists []. apply checkEndsWithPunct_exempt. right. exists c. by rewrite E.
  - exists []. apply checkEndsWithPunct_exempt. left. by rewrite E.
Qed.

Lemma checkSpacing_spec l fn doc :
  current l = Some fn → regexp l = Some compiled →
  checkSpacing doc l =
  Some (emit (map (λ _, funcFinding l fn
                     "found comment without leading space and it's not a pragma")
                  (List.filter flaggedBySpacing (List doc))) l).
Proof.
  intros Hc Hr. unfold checkSpacing.
  set (msg := "found comment without leading space and it's not a pragma").
  assert (∀ cs pre,
    checkSpacing_loop cs (emit pre l) =
    Some (emit (pre ++ map (λ _, funcFinding l fn msg)
                           (List.filter flaggedBySpacing cs)) l)) as Hloop.
  { induction cs as [|c cs IH]; intros pre.
    - simpl. by rewrite app_nil_r.
    - cbn [checkSpacing_loop List.filter]. unfold flaggedBySpacing at 1.
      destruct (HasPrefix (Text c) "/*"); [apply IH|].
      rewrite regexp_emit, Hr. cbn [mbind option_bind directive compiled negb andb].
      destruct (MatchString directivePat (Text c)); [apply IH|].
      cbn [negb andb].
      destruct (negb (HasPrefix (Text c) "// ") &&
                negb (HasPrefix (Text c) ("//" +:+ TAB))); [|apply IH].
      rewrite (warnFunc_emit _ fn) by (by rewrite current_emit).
      cbn [mbind option_bind]. rewrite funcFinding_emit, <- emit_app, IH.
      by rewrite <- app_assoc. }
  apply (Hloop (List doc) []).
Qed.

End LinterFacts.

Module PackageFacts.
Import GoStringFacts LinterFacts.

Lemma docFiles_length_le entries :
  (length (docFiles entries) ≤ length entries)%nat.
Proof.
  unfold docFiles. induction entries as [|e es IH]; simpl; [lia|].
  destruct (hasDoc e); simpl; lia.
Qed.

Lemma scanDocs_spec entries :
  scanDocs entries =
  (int_wrap (Z.of_nat (length (docFiles entries))),
   last (docFiles entries) ≫= (λ e, FileDoc e.2),
   from_option fst EmptyString (last (docFiles entries))).
Proof.
  unfold scanDocs.
  match goal with |- foldl ?f _ _ = _ => set (step := f) end.
  assert (∀ es name doc a,
    foldl step (int_wrap a, doc, name) es =
    (int_wrap (a + Z.of_nat (length (docFiles es))),
     match last (docFiles es) with Some e => FileDoc e.2 | None => doc end,
     from_option fst name (last (docFiles es)))) as Hacc.
  { induction es as [|[filename f] es IH]; intros name doc a.
    - simpl. by rewrite Z.add_0_r.
    - cbn [foldl]. unfold docFiles. cbn [List.filter]. unfold hasDoc at 1 4 7.
      unfold step at 2. cbn [snd].
      destruct (FileDoc f) as [d|] eqn:Ed.
      + rewrite int_wrap_add_l, IH. fold (docFiles es). rewrite last_cons.
        cbn [length]. destruct (last (docFiles es)) as [e|]; simpl.
        * do 3 f_equal. lia.
        * rewrite Ed. do 3 f_equal. lia.
      + apply IH. }
  change (0, None, EmptyString) with (int_wrap 0, @None CommentGroup, EmptyString).
  rewrite Hacc, Z.add_0_l. by destruct (last (docFiles entries)).
Qed.

Lemma last_docFiles entries e :
  last (docFiles entries) = Some e → is_Some (FileDoc e.2).
Proof.
  intros H%last_Some_elem_of. unfold docFiles in H.
  apply list_elem_of_In, filter_In in H as [_ H]. unfold hasDoc in H.
  by destruct (FileDoc e.2).
Qed.

Lemma physicalLines_nonneg d : 0 ≤ physicalLines d.
Proof.
  unfold physicalLines. induction (List d) as [|c cs IH]; cbn [foldr]; [lia|].
  pose proof (count_nonneg (bytes (Text c)) "010"%char). unfold CountLF in *. lia.
Qed.

Lemma countLines_spec d : countLines (List d) = int_wrap (physicalLines d).
Proof.
  unfold countLines, physicalLines.
  match goal with |- foldl ?f _ _ = _ => set (step := f) end.
  assert (∀ cs a,
    foldl step (int_wrap a) cs =
    int_wrap (a + foldr (λ c n, (CountLF (Text c) + 1) + n) 0 cs)) as Hacc.
  { induction cs as [|c cs IH]; intros a.
    - simpl. by rewrite Z.add_0_r.
    - cbn [foldl foldr]. unfold step at 2.
      rewrite int_wrap_add_l, int_wrap_add_r, IH. f_equal. lia. }
  change 0 with (int_wrap 0) at 1. by rewrite Hacc, Z.add_0_l.
Qed.

Lemma docFiles_Permutation entries entries' :
  entries ≡ₚ entries' → docFiles entries ≡ₚ docFiles entries'.
Proof.
  unfold docFiles. induction 1 as [|e es es' _ IH|e e' es|es1 es2 es3 _ IH1 _ IH2].
  - done.
  - cbn [List.filter]. destruct (hasDoc e); [by constructor | done].
  - cbn [List.filter]. destruct (hasDoc e), (hasDoc e'); try done. by constructor.
  - by etrans.
Qed.

(** The order in which Go iterates over [pkg.Files] does not change what
    [CheckPackage] does, as long as the counter cannot overflow. *)
Lemma CheckPackage_in_order entries entries' name l :
  entries ≡ₚ entries' → Z.of_nat (length entries) < 2 ^ 63 →
  CheckPackage_in entries name l = CheckPackage_in entries' name l.
Proof.
  intros Hperm Hsize. pose proof (docFiles_Permutation _ _ Hperm) as Hdocs.
  unfold CheckPackage_in. rewrite !scanDocs_spec.
  rewrite <- (Permutation_length Hdocs).
  rewrite int_wrap_small by (pose proof (docFiles_length_le entries); lia).
  destruct (_ =? 1) eqn:E1; [|done].
  apply Z.eqb_eq in E1. destruct (docFiles entries) as [|e [|e' es]] eqn:Ed;
    cbn [length] in E1; try lia.
  apply Permutation_singleton_l in Hdocs. by rewrite <- Hdocs.
Qed.

(** [CheckPackage] never panics and only writes. *)
Lemma CheckPackage_in_emits entries name l :
  ∃ a, CheckPackage_in entries name l = Some (emit a l).
Proof.
  unfold CheckPackage_in. rewrite scanDocs_spec.
  destruct (_ =? 1) eqn:E1.
  - destruct (negb _); [|by exists []].
    destruct (last (docFiles entries)) as [e|] eqn:El.
    + destruct (last_docFiles _ _ El) as [d Hd]. simpl. rewrite Hd. simpl.
      destruct (_ && _); [|by exists []].
      rewrite warnPkg_emit. eauto.
    + apply last_None in El. rewrite El in E1. done.
  - destruct (_ =? 0); rewrite warnPkg_emit; eauto.
Qed.

End PackageFacts.

Module DeclFacts.
Import GoStringFacts LinterFacts PackageFacts.

Lemma checkBoolFuncStyle_emits l fn doc :
  current l = Some fn → regexp l = Some compiled → List doc ≠ [] →
  ∃ a1 a2,
    (a1 = [] ∨ a1 = [funcFinding l fn "bad predicate comment"]) ∧
    (a2 = [] ∨ a2 = [funcFinding l fn "bad predicate comment"]) ∧
    checkBoolFuncStyle doc l = Some (emit (a1 ++ a2) l) ∧
    (isBooleanFunc fn = true → ∀ c, List doc !! 0%nat = Some c →
       antipatternCheck compiled (Text c) (Name fn) l = Some (emit a1 l) ∧
       predPrefixCheck compiled (Text c) (Name fn) (emit a1 l)
         = Some (emit (a1 ++ a2) l)).
Proof.
  intros Hc Hr Hne. destruct (isBooleanFunc fn) eqn:Hb.
  - destruct (List doc) as [|c cs] eqn:Hd; [done|].
    destruct (antipatternCheck_emits l fn (Text c) (Name fn) Hc) as (a1 & Ha1 & H1).
    destruct (predPrefixCheck_emits (emit a1 l) fn (Text c) (Name fn))
      as (a2 & Ha2 & H2); [by rewrite current_emit|].
    rewrite (funcFinding_emit a1 l fn) in Ha2. rewrite <- emit_app in H2.
    exists a1, a2. split; [done|]. split; [done|]. split.
    + rewrite (checkBoolFuncStyle_steps l fn doc c) by (done || by rewrite Hd).
      rewrite H1. done.
    + intros _ c' [= <-]. done.
  - exists [], []. split; [by left|]. split; [by left|]. split; [|done].
    by apply (checkBoolFuncStyle_not_predicate l fn).
Qed.

(** The three checks after [checkBoolFuncStyle] write the same lines
    whatever was written before them. *)
Lemma otherChecks_emits l fn doc :
  current l = Some fn → regexp l = Some compiled →
  ∃ rest, ∀ pre,
    (checkNoMultiline doc (emit pre l) ≫= checkEndsWithPunct doc)
      ≫= checkSpacing doc
    = Some (emit (pre ++ rest) l).
Proof.
  intros Hc Hr.
  set (r1 := if existsb isBlockComment (List doc)
             then [funcFinding l fn "should not use /**/ comments in doc-comments"]
             else []).
  assert (∃ r2, ∀ pre, checkEndsWithPunct doc (emit pre l) = Some (emit (pre ++ r2) l))
    as [r2 H2].
  { destruct (List doc) as [|c [|c' cs]] eqn:E.
    - exists []. intros pre. rewrite app_nil_r.
      apply checkEndsWithPunct_exempt. left. by rewrite E.
    - destruct (HasPrefix (Text c) "//") eqn:Hp.
      + destruct (HasPrefix_lastByte _ Hp) as [b Hb].
        exists (if Unicode.IsPunct (rune b) then []
                else [funcFinding l fn
                  "doc-comment should end with punctuation, usually with period"]).
        intros pre.
        rewrite (checkEndsWithPunct_single _ fn doc c b)
          by (done || by rewrite current_emit).
        destruct (Unicode.IsPunct _); [by rewrite app_nil_r|].
        by rewrite funcFinding_emit, <- emit_app.
      + exists []. intros pre. rewrite app_nil_r.
        apply checkEndsWithPunct_exempt. right. exists c. by rewrite E.
    - exists []. intros pre. rewrite app_nil_r.
      apply checkEndsWithPunct_exempt. left. by rewrite E. }
  eexists (r1 ++ r2 ++ _). intros pre.
  rewrite (checkNoMultiline_spec _ fn) by (by rewrite current_emit).
  rewrite funcFinding_emit.
  replace (if existsb isBlockComment (List doc) then _ else emit pre l)
    with (emit (pre ++ r1) l)
    by (unfold r1; destruct (existsb _ _);
        [by rewrite emit_app | by rewrite app_nil_r]).
  cbn [mbind option_bind]. rewrite H2. cbn [mbind option_bind].
  rewrite (checkSpacing_spec _ fn)
    by (by rewrite ?current_emit, ?regexp_emit).
  rewrite funcFinding_emit, <- emit_app. by rewrite <- !app_assoc.
Qed.

Lemma checkDecl_emits l decl doc :
  Doc decl = Some doc → regexp l = Some compiled → List doc ≠ [] →
  ∃ outs, checkDecl (DFunc decl) l = Some (emit outs (setCurrent decl l)).
Proof.
  intros Hd Hr Hne. unfold checkDecl. rewrite Hd.
  destruct (checkBoolFuncStyle_emits (setCurrent decl l) decl doc)
    as (a1 & a2 & _ & _ & Ha & _); [done..|].
  destruct (otherChecks_emits (setCurrent decl l) decl doc) as [rest Hrest]; [done..|].
  exists ((a1 ++ a2) ++ rest). rewrite Ha. cbn [mbind option_bind].
  specialize (Hrest (a1 ++ a2)).
  destruct (checkNoMultiline doc _) as [l2|]; [|done]. cbn [mbind option_bind] in *.
  destruct (checkEndsWithPunct doc l2) as [l3|]; [|done]. done.
Qed.

(** *** The whole pass *)

Lemma checkDecl_total d l :
  regexp l = Some compiled → counted l → docNonEmpty d = true →
  ∃ l', checkDecl d l = Some l' ∧ regexp l' = Some compiled ∧ counted l'.
Proof.
  intros Hr Hn Hp. destruct d as [decl|doc]; [|by exists l].
  destruct (Doc decl) as [doc|] eqn:Hd.
  - destruct (checkDecl_emits l decl doc) as [outs H]; [done..| |].
    { simpl in Hp. rewrite Hd in Hp. by destruct (List doc). }
    eexists. split; [done|]. split.
    + by rewrite regexp_emit.
    + by apply counted_emit.
  - exists l. unfold checkDecl. by rewrite Hd.
Qed.

Lemma CheckFile_total f l :
  regexp l = Some compiled → counted l → fileParsed f = true →
  ∃ l', CheckFile f l = Some l' ∧ regexp l' = Some compiled ∧ counted l'.
Proof.
  unfold CheckFile, fileParsed. revert l.
  induction (Decls f) as [|d ds IH]; intros l Hr Hn Hp; [by exists l|].
  cbn [forallb] in Hp. apply andb_true_iff in Hp as [Hd Hds].
  destruct (checkDecl_total d l) as (l1 & H1 & Hr1 & Hn1); [done..|].
  destruct (IH l1) as (l2 & H2 & Hr2 & Hn2); [done..|].
  exists l2. cbn [CheckFile_loop]. rewrite H1. done.
Qed.

Lemma doCall_total c l :
  regexp l = Some compiled → counted l → callParsed c = true →
  ∃ l', doCall c l = Some l' ∧ regexp l' = Some compiled ∧ counted l'.
Proof.
  intros Hr Hn Hp. destruct c as [entries name|f].
  - destruct (CheckPackage_in_emits entries name l) as [a Ha].
    eexists. split; [done|]. split; [by rewrite regexp_emit | by apply counted_emit].
  - by apply CheckFile_total.
Qed.

Lemma checkCalls_total cs l :
  regexp l = Some compiled → counted l → forallb callParsed cs = true →
  ∃ l', checkCalls cs l = Some l' ∧ counted l'.
Proof.
  revert l. induction cs as [|c cs IH]; intros l Hr Hn Hp; [by exists l|].
  cbn [forallb] in Hp. apply andb_true_iff in Hp as [Hc Hcs].
  destruct (doCall_total c l) as (l1 & H1 & Hr1 & Hn1); [done..|].
  destruct (IH l1) as (l2 & H2 & Hn2); [done..|].
  exists l2. cbn [checkCalls]. rewrite H1. done.
Qed.

Lemma checkCalls_app a b l :
  checkCalls (a ++ b) l = checkCalls a l ≫= checkCalls b.
Proof.
  revert l. induction a as [|c a IH]; intros l; [done|].
  cbn [checkCalls app]. destruct (doCall c l) as [l1|]; [apply IH | done].
Qed.

Lemma CheckFiles_calls fs l : CheckFiles fs l = checkCalls (map CallFile fs) l.
Proof.
  revert l. induction fs as [|f fs IH]; intros l; [done|].
  cbn [CheckFiles map checkCalls doCall].
  destruct (CheckFile f l) as [l1|]; [apply IH | done].
Qed.

Lemma checkCalls_callsOf pkg l :
  checkCalls (callsOf pkg) l =
  CheckPackage pkg l ≫= CheckFiles (map snd (map_to_list (Files pkg))).
Proof.
  unfold callsOf, CheckPackage. cbn [checkCalls doCall].
  destruct (CheckPackage_in _ _ l) as [l1|]; [|done].
  cbn [mbind option_bind]. by rewrite CheckFiles_calls.
Qed.

Lemma checkAll_calls pkgs l :
  checkAll pkgs l = checkCalls (concat (map callsOf pkgs)) l.
Proof.
  revert l. induction pkgs as [|pkg pkgs IH]; intros l; [done|].
  cbn [checkAll map concat]. rewrite checkCalls_app, checkCalls_callsOf.
  destruct (CheckPackage pkg l) as [l1|]; [|done]. cbn [mbind option_bind].
  destruct (CheckFiles _ l1) as [l2|]; [apply IH | done].
Qed.

Lemma callsOf_parsed pkgs :
  forallb packageParsed pkgs = true →
  forallb callParsed (concat (map callsOf pkgs)) = true.
Proof.
  induction pkgs as [|pkg pkgs IH]; [done|].
  cbn [forallb map concat]. intros [Hp Hps]%andb_true_iff.
  rewrite forallb_app, IH by done. rewrite andb_true_r.
  unfold callsOf, packageParsed in *. cbn [forallb callParsed]. 
  induction (map_to_list (Files pkg)) as [|e es IHe]; [done|].
  cbn [forallb map callParsed] in *. apply andb_true_iff in Hp as [-> He].
  by apply IHe.
Qed.

End DeclFacts.

Module ReportFacts.
Import GoStringFacts LinterFacts.

Lemma issues_emit_one o l : issues (emit [o] l) = int_wrap (issues l + 1).
Proof. by destruct o. Qed.

Lemma bump_S k i : bump (S k) i = bump k (int_wrap (i + 1)).
Proof. unfold bump. by rewrite Nat.iter_succ_r. Qed.

Lemma issues_emit_bump outs l : issues (emit outs l) = bump (length outs) (issues l).
Proof.
  revert l. induction outs as [|[f a] outs IH]; intros l; [done|].
  by rewrite emit_cons, IH, (bump_S (length outs)).
Qed.

(** A format without a percent sign is copied. *)
Lemma sprintf_plain s t args :
  "%"%char ∉ s → Fmt.sprintf (s ++ t) args = (λ r, s ++ r) <$> Fmt.sprintf t args.
Proof.
  induction s as [|c s IH]; intros Hs.
  - change ([] ++ t) with t. destruct (Fmt.sprintf t args); reflexivity.
  - cbn [app Fmt.sprintf]. destruct (Ascii.eqb c "%") eqn:E.
    + apply Ascii.eqb_eq in E. subst c. exfalso. apply Hs. apply list_elem_of_here.
    + rewrite IH by (intros H; apply Hs; by apply list_elem_of_further).
      destruct (Fmt.sprintf t args); reflexivity.
Qed.

Lemma bytes_of_list s : bytes (String.string_of_list_ascii s) = s.
Proof. apply String.list_ascii_of_string_of_list_ascii. Qed.

Lemma of_list_app s t :
  String.string_of_list_ascii (s ++ t)
  = String.string_of_list_ascii s +:+ String.string_of_list_ascii t.
Proof. induction s as [|c s IH]; [done|]. cbn. by rewrite IH. Qed.

Lemma of_list_bytes s : String.string_of_list_ascii (bytes s) = s.
Proof. apply String.string_of_list_ascii_of_string. Qed.

End ReportFacts.

Import GoStringFacts RegexpFacts PatternFacts LinterFacts PackageFacts DeclFacts
  ReportFacts.

(** ** The model at work *)

Example hasFoo_clean :
  stderr <$> checkDecl (DFunc Sample.hasFoo) Sample.l0 = Some [].
Proof. vm_compute. reflexivity. Qed.

Example isOK_twice :
  length <$> (stderr <$> checkDecl (DFunc Sample.isOK) Sample.l0) = Some 2%nat.
Proof. vm_compute. reflexivity. Qed.

Example run_clean : run "pkg" Sample.pos [Sample.cleanPkg] = Some 0.
Proof. vm_compute. reflexivity. Qed.

Example run_two_docs : run "pkg" Sample.pos [Sample.twoDocsPkg] = Some 1.
Proof. vm_compute. reflexivity. Qed.

Example run_long_doc : run "pkg" Sample.pos [Sample.longPkg] = Some 1.
Proof. vm_compute. reflexivity. Qed.

(** ** The predicate classifier *)

(** C2. [isBooleanFunc] answers true exactly when the result list has one
    entry, that entry binds one name and its type is the identifier
    [bool]; the answer does not depend on the function body. *)
Theorem isBooleanFunc_iff (decl : FuncDecl) :
  (isBooleanFunc decl = true ↔
   ∃ name, Results (DeclType decl)
           = Some [ {| Names := [name]; FieldType := Ident "bool" |} ])
  ∧ ∀ body, isBooleanFunc {| Doc := Doc decl; Name := Name decl;
                             DeclType := DeclType decl; Body := body;
                             Pos := Pos decl |}
            = isBooleanFunc decl.
Proof.
  split; [|done]. unfold isBooleanFunc.
  destruct (Results (DeclType decl)) as [[|[names ty] [|res' results]]|].
  - split; [done | intros [? [=]]].
  - cbn [length Nat.eqb negb lookup list_lookup Names FieldType].
    destruct names as [|name [|name' names]].
    + split; [done | intros [? [=]]].
    + cbn [length Nat.eqb negb]. destruct ty; try (split; [done | intros [? [=]]]).
      rewrite String.eqb_eq. split; [intros ->; eauto | by intros [? [= _ ->]]].
    + split; [done | intros [? [=]]].
  - split; [done | intros [? [=]]].
  - split; [done | intros [? [=]]].
Qed.

(** ** The antipattern step *)

(** C3. For a documented predicate function, the antipattern step of
    [checkBoolFuncStyle] runs on the first comment line and returns. When
    the pattern is found at [loc0] and [1 < loc0 - len(name) <= 4], it
    appends the one line "bad predicate comment" at the function's
    position to what was written and adds one to the counter; when the
    pattern is found outside that window, or is not found, it leaves the
    linter as it was: nothing written, nothing counted. *)
Theorem antipatternCheck_window (l : linter) (fn : FuncDecl)
    (doc : CommentGroup) (c : Comment) :
  current l = Some fn → regexp l = Some compiled →
  isBooleanFunc fn = true → List doc !! 0%nat = Some c →
  len (Text c) < 2 ^ 63 → len (Name fn) < 2 ^ 63 →
  checkBoolFuncStyle doc l =
    antipatternCheck compiled (Text c) (Name fn) l
      ≫= predPrefixCheck compiled (Text c) (Name fn)
  ∧ ∃ l', antipatternCheck compiled (Text c) (Name fn) l = Some l'
      ∧ (∀ loc0, FindStringIndex predAntipatternPat (Text c) = Some loc0 →
           (1 < loc0 - len (Name fn) ≤ 4 →
            stderr l' = stderr l ++ [funcFinding l fn "bad predicate comment"]
            ∧ issues l' = int_wrap (issues l + 1))
           ∧ (¬ 1 < loc0 - len (Name fn) ≤ 4 → l' = l))
      ∧ (FindStringIndex predAntipatternPat (Text c) = None → l' = l).
Proof.
  intros Hc Hr Hb Hd Hline Hname. split; [by apply checkBoolFuncStyle_steps|].
  unfold antipatternCheck. cbn [predAntipattern compiled].
  destruct (FindStringIndex predAntipatternPat (Text c)) as [loc0|] eqn:Hloc.
  - cbv zeta.
    pose proof (FindStringIndex_bounds _ _ _ Hloc) as Hb0.
    assert (0 ≤ len (Name fn)) by (unfold len; lia).
    rewrite int_wrap_small by lia.
    destruct (1 <? loc0 - len (Name fn)) eqn:E1;
      [destruct (loc0 - len (Name fn) <=? 4) eqn:E2|]; cbn [andb].
    + rewrite (warnFunc_emit l fn) by done. eexists. split; [reflexivity|].
      split; [|done]. intros ? [= <-]. split; [|intros Hout].
      * intros _. by rewrite stderr_emit, issues_emit_one.
      * apply Z.ltb_lt in E1. apply Z.leb_le in E2. lia.
    + exists l. split; [done|]. split; [|done]. intros ? [= <-].
      split; [|done]. apply Z.leb_gt in E2. lia.
    + exists l. split; [done|]. split; [|done]. intros ? [= <-].
      split; [|done]. apply Z.ltb_ge in E1. lia.
  - exists l. split; [done|]. split; [|done]. intros ? [=].
Qed.

Lemma antipatternCheck_window_witness :
  let l := setCurrent Sample.isOK Sample.l0 in
  ∃ l', antipatternCheck compiled "// IsOK returns true if x holds." "IsOK" l
        = Some l'
        ∧ stderr l' = [Fprintf ("pkg/a.go:7:1: bad predicate comment" +:+ LF) []]
        ∧ issues l' = 1.
Proof.
  intros l.
  destruct (antipatternCheck_window l Sample.isOK Sample.isOKDoc
              {| Text := "// IsOK returns true if x holds." |}
              eq_refl eq_refl eq_refl eq_refl eq_refl eq_refl)
    as (_ & l' & Hrun & Hfound & _).
  exists l'. split; [exact Hrun|].
  apply (Hfound 7); [vm_compute; reflexivity|].
  vm_compute. split; [reflexivity | discriminate].
Defined.

(** ** The prefix step *)

(** What [predPrefixCheck] does with names in which the prefix pattern is
    found at the start or not at all. *)
Lemma predPrefixCheck_anchored (l : linter) (fn : FuncDecl) (line name : string) :
  current l = Some fn →
  (∀ n, predicatePrefixAt (bytes name) n → n = 0%nat) →
  predPrefixCheck compiled line name l =
  Some (if beginsWithPredicatePrefix name &&
           negb (Contains line (name +:+ " reports whether "))
        then emit [funcFinding l fn "bad predicate comment"] l else l).
Proof.
  intros Hc Hstart. rewrite (predPrefixCheck_spec l fn) by done.
  replace (MatchString predPrefixPat name) with (beginsWithPredicatePrefix name);
    [done|].
  apply eq_true_iff_eq.
  rewrite beginsWithPredicatePrefix_spec, MatchString_predPrefix. split; [eauto|].
  intros [n H]. by rewrite <- (Hstart n H).
Qed.

(** C1. The prefix pattern is searched for anywhere in the name:
    [ScanFile] does not begin with one of the prefixes, yet [canF] inside
    it matches, and the plainly documented predicate is reported. *)
Theorem predPrefix_found_inside_name :
  let l := setCurrent Sample.scanFile Sample.l0 in
  beginsWithPredicatePrefix "ScanFile" = false
  ∧ MatchString predPrefixPat "ScanFile" = true
  ∧ predPrefixCheck compiled "// ScanFile walks the file." "ScanFile" l
    = Some (emit [funcFinding l Sample.scanFile "bad predicate comment"] l)
  ∧ checkBoolFuncStyle Sample.scanFileDoc l
    = Some (emit [funcFinding l Sample.scanFile "bad predicate comment"] l).
Proof.
  intros l.
  assert (predPrefixCheck compiled "// ScanFile walks the file." "ScanFile" l
          = Some (emit [funcFinding l Sample.scanFile "bad predicate comment"] l))
    as Hstep.
  { rewrite (predPrefixCheck_spec l Sample.scanFile) by reflexivity.
    compute_search. reflexivity. }
  split; [vm_compute; reflexivity|]. split; [vm_compute; reflexivity|].
  split; [exact Hstep|].
  rewrite (checkBoolFuncStyle_steps l Sample.scanFile _
             {| Text := "// ScanFile walks the file." |}) by reflexivity.
  unfold antipatternCheck. cbn [predAntipattern compiled Text Name Sample.scanFile Sample.func].
  compute_search. exact Hstep.
Qed.

(** ** The steps of a documented function *)

(** Both steps report on [func IsOK() (ok bool)] documented with
    "returns true if": two lines for one comment. *)
Lemma two_predicate_findings :
  let l := setCurrent Sample.isOK Sample.l0 in
  let bad := funcFinding l Sample.isOK "bad predicate comment" in
  checkBoolFuncStyle Sample.isOKDoc l = Some (emit [bad; bad] l)
  ∧ ¬ (∀ l', checkBoolFuncStyle Sample.isOKDoc l = Some l' →
             (length (stderr l') ≤ 1)%nat).
Proof.
  intros l bad.
  assert (checkBoolFuncStyle Sample.isOKDoc l = Some (emit [bad; bad] l)) as Hrun.
  { rewrite (checkBoolFuncStyle_steps l Sample.isOK _
               {| Text := "// IsOK returns true if x holds." |}) by reflexivity.
    unfold antipatternCheck.
    cbn [predAntipattern compiled Text Name Sample.isOK Sample.func].
    compute_search. cbv zeta. compute_term (int_wrap (7 - len "IsOK")).
    change ((1 <? 3) && (3 <=? 4)) with true. cbv iota.
    rewrite (warnFunc_emit l Sample.isOK) by reflexivity. cbn [mbind option_bind].
    rewrite (predPrefixCheck_spec _ Sample.isOK) by reflexivity.
    compute_search. reflexivity. }
  split; [exact Hrun|]. intros H. specialize (H _ Hrun).
  rewrite stderr_emit, length_app in H. cbn [length] in H. lia.
Qed.

(** C4, as the code has it. [checkBoolFuncStyle] writes at most two
    "bad predicate comment" lines, at most one from the antipattern step
    and at most one from the prefix step, the second added to the first;
    then [checkNoMultiline], [checkEndsWithPunct] and [checkSpacing] run
    and write the same lines whatever the first check wrote. *)
Theorem checkDecl_accumulates (l : linter) (decl : FuncDecl) (doc : CommentGroup) :
  Doc decl = Some doc → regexp l = Some compiled → List doc ≠ [] →
  let l0 := setCurrent decl l in
  let bad := funcFinding l decl "bad predicate comment" in
  ∃ a1 a2 rest,
    (a1 = [] ∨ a1 = [bad]) ∧ (a2 = [] ∨ a2 = [bad])
    ∧ checkBoolFuncStyle doc l0 = Some (emit (a1 ++ a2) l0)
    ∧ (isBooleanFunc decl = true → ∀ c, List doc !! 0%nat = Some c →
         antipatternCheck compiled (Text c) (Name decl) l0 = Some (emit a1 l0)
         ∧ predPrefixCheck compiled (Text c) (Name decl) (emit a1 l0)
           = Some (emit (a1 ++ a2) l0))
    ∧ (∀ pre, (checkNoMultiline doc (emit pre l0) ≫= checkEndsWithPunct doc)
                ≫= checkSpacing doc
              = Some (emit (pre ++ rest) l0))
    ∧ checkDecl (DFunc decl) l = Some (emit (a1 ++ a2 ++ rest) l0).
Proof.
  intros Hd Hr Hne l0 bad.
  destruct (checkBoolFuncStyle_emits l0 decl doc) as (a1 & a2 & H1 & H2 & Ha & Hs);
    [done..|].
  destruct (otherChecks_emits l0 decl doc) as [rest Hrest]; [done..|].
  exists a1, a2, rest. repeat (split; [done|]).
  unfold checkDecl. rewrite Hd. fold l0. rewrite Ha. cbn [mbind option_bind].
  specialize (Hrest (a1 ++ a2)). rewrite <- app_assoc in Hrest.
  destruct (checkNoMultiline doc _) as [l2|]; [|done]. cbn [mbind option_bind] in *.
  destruct (checkEndsWithPunct doc l2) as [l3|]; [|done]. done.
Qed.

Lemma checkDecl_accumulates_witness :
  let l0 := setCurrent Sample.isOK Sample.l0 in
  let bad := funcFinding Sample.l0 Sample.isOK "bad predicate comment" in
  ∃ a1 a2 rest,
    (a1 = [] ∨ a1 = [bad]) ∧ (a2 = [] ∨ a2 = [bad])
    ∧ checkBoolFuncStyle Sample.isOKDoc l0 = Some (emit (a1 ++ a2) l0)
    ∧ (isBooleanFunc Sample.isOK = true →
       ∀ c, List Sample.isOKDoc !! 0%nat = Some c →
         antipatternCheck compiled (Text c) (Name Sample.isOK) l0
         = Some (emit a1 l0)
         ∧ predPrefixCheck compiled (Text c) (Name Sample.isOK) (emit a1 l0)
           = Some (emit (a1 ++ a2) l0))
    ∧ (∀ pre, (checkNoMultiline Sample.isOKDoc (emit pre l0)
                 ≫= checkEndsWithPunct Sample.isOKDoc)
                ≫= checkSpacing Sample.isOKDoc
              = Some (emit (pre ++ rest) l0))
    ∧ checkDecl (DFunc Sample.isOK) Sample.l0 = Some (emit (a1 ++ a2 ++ rest) l0).
Proof.
  apply (checkDecl_accumulates Sample.l0 Sample.isOK Sample.isOKDoc);
    [reflexivity | reflexivity | discriminate].
Defined.

(** ** The package comment *)

(** What [CheckPackage] does once it has counted one package comment,
    in the file [entries] lists under [key]. *)
Lemma CheckPackage_in_single (entries : list (string * File)) (name : string)
    (l : linter) (key : string) (f : File) (d : CommentGroup) :
  docFiles entries = [(key, f)] → FileDoc f = Some d →
  name ≠ "main" → physicalLines d < 2 ^ 63 →
  CheckPackage_in entries name l =
  if (100 <? physicalLines d) && negb (String.eqb key "doc.go")
  then warnPkg key "long doc-comments should go into doc.go file" [] l
  else Some l.
Proof.
  intros Hdocs Hd Hmain Hlines.
  unfold CheckPackage_in. rewrite scanDocs_spec, Hdocs.
  cbn [length last mbind option_bind from_option fst snd]. rewrite Hd.
  change (int_wrap (Z.of_nat 1) =? 1) with true. cbv iota.
  apply String.eqb_neq in Hmain. rewrite Hmain. cbn [negb mbind option_bind].
  rewrite countLines_spec, int_wrap_small
    by (pose proof (physicalLines_nonneg d); lia).
  done.
Qed.

Lemma baseName_nonempty (key : string) : baseName key = "doc.go" → key ≠ EmptyString.
Proof. by intros H ->. Qed.

(** C5. [CheckPackage] compares the key under which [pkg.Files] holds
    the file of the package comment with [doc.go]; the key is the whole
    path of the file. A comment of more than 100 lines in a file whose
    name is [doc.go], filed under a directory, is therefore reported: one
    line, anchored to that path, is written and counted. *)
Theorem CheckPackage_doc_go_in_directory (entries : list (string * File))
    (name : string) (l : linter) (key : string) (f : File) (d : CommentGroup) :
  docFiles entries = [(key, f)] → FileDoc f = Some d → name ≠ "main" →
  baseName key = "doc.go" → key ≠ "doc.go" →
  100 < physicalLines d < 2 ^ 63 →
  ∃ l', CheckPackage_in entries name l = Some l'
        ∧ stderr l' = stderr l ++
            [Fprintf ((key +:+ ": ")
                      +:+ "long doc-comments should go into doc.go file" +:+ LF) []]
        ∧ issues l' = int_wrap (issues l + 1).
Proof.
  intros Hdocs Hd Hmain Hbase Hkey [Hlong Hlines].
  rewrite (CheckPackage_in_single entries name l key f d) by done.
  apply Z.ltb_lt in Hlong. apply String.eqb_neq in Hkey.
  rewrite Hlong, Hkey. cbn [negb andb]. rewrite warnPkg_emit.
  eexists. split; [reflexivity|]. rewrite stderr_emit, issues_emit_one.
  split; [|done]. unfold pkgAnchor, pkgFinding.
  pose proof (baseName_nonempty key Hbase) as Hne.
  apply String.eqb_neq in Hne. by rewrite Hne.
Qed.

Lemma CheckPackage_doc_go_in_directory_witness :
  baseName "pkg/doc.go" = "doc.go"
  ∧ ∃ l', CheckPackage Cases.docGoPkg Sample.l0 = Some l'
          ∧ stderr l' =
              [Fprintf ("pkg/doc.go: long doc-comments should go into doc.go file"
                        +:+ LF) []]
          ∧ issues l' = 1.
Proof.
  split; [vm_compute; reflexivity|].
  refine (CheckPackage_doc_go_in_directory
            (map_to_list (Files Cases.docGoPkg)) "pkg" Sample.l0 "pkg/doc.go"
            (Sample.fileWith (Some (Sample.longDoc 101)) [])
            (Sample.longDoc 101) _ _ _ _ _ _).
  - vm_compute. reflexivity.
  - reflexivity.
  - discriminate.
  - vm_compute. reflexivity.
  - discriminate.
  - vm_compute. split; reflexivity.
Defined.

(** The line for the number of package comments, rendered: under a path
    without a percent sign the count stands in the message. *)
Lemma Sprintf_count_plain (p : string) (n : Z) :
  "%"%char ∉ bytes p →
  Fmt.Sprintf ((p +:+ ": ") +:+ "found %d doc-comments, expected 1" +:+ LF) [n]
  = Some (p +:+ ": found " +:+ String.string_of_list_ascii (Fmt.decimal n)
            +:+ " doc-comments, expected 1" +:+ LF).
Proof.
  intros Hp. unfold Fmt.Sprintf. rewrite !bytes_app, <- app_assoc.
  rewrite (sprintf_plain (bytes p)) by done.
  change (Fmt.sprintf _ [n])
    with (Some (bytes ": found " ++ Fmt.decimal n
                ++ bytes (" doc-comments, expected 1" +:+ LF))).
  cbn [fmap option_fmap option_map]. f_equal.
  rewrite !of_list_app, !of_list_bytes. done.
Qed.

(** Under the path [a%d] the count is taken by the verb in the path. *)
Lemma Sprintf_count_percent (n : Z) :
  Fmt.Sprintf (("a%d" +:+ ": ") +:+ "found %d doc-comments, expected 1" +:+ LF) [n]
  = Some ("a" +:+ String.string_of_list_ascii (Fmt.decimal n)
            +:+ ": found %!d(MISSING) doc-comments, expected 1" +:+ LF).
Proof.
  unfold Fmt.Sprintf.
  change (Fmt.sprintf _ [n])
    with (Some (bytes "a" ++ Fmt.decimal n
                ++ bytes (": found %!d(MISSING) doc-comments, expected 1" +:+ LF))).
  cbn [fmap option_fmap option_map]. f_equal.
  rewrite !of_list_app, !of_list_bytes. done.
Qed.

(** C9. [CheckPackage] counts the files that carry a package comment.
    With none it makes one write, "no doc-comment found" under the package
    path, counts it and returns; with [n > 1] it makes one write, "found
    %d doc-comments, expected 1" under the package path with [n] as the
    argument, counts it and returns; only with exactly one does it go on
    to the long-comment check, which leaves the linter as it was or makes
    its one write. The path is part of the format of the write: rendered,
    the line reads "found n doc-comments" under a path without a percent
    sign, while under the path [a%d] the count is printed in the path and
    the message reads "found %!d(MISSING) doc-comments". This holds for
    every iteration order of the files. *)
Theorem CheckPackage_doc_count (entries : list (string * File)) (name : string)
    (l : linter) :
  Z.of_nat (length entries) < 2 ^ 63 →
  let n := Z.of_nat (length (docFiles entries)) in
  let line := Fprintf ((path l +:+ ": ")
                       +:+ "found %d doc-comments, expected 1" +:+ LF) [n] in
  ∃ l', CheckPackage_in entries name l = Some l'
    ∧ (n = 0 →
       stderr l' = stderr l ++
         [Fprintf ((path l +:+ ": ") +:+ "no doc-comment found" +:+ LF) []]
       ∧ issues l' = int_wrap (issues l + 1))
    ∧ (1 < n →
       stderr l' = stderr l ++ [line]
       ∧ issues l' = int_wrap (issues l + 1)
       ∧ ("%"%char ∉ bytes (path l) →
          Fmt.rendered line
          = Some (path l +:+ ": found "
                    +:+ String.string_of_list_ascii (Fmt.decimal n)
                    +:+ " doc-comments, expected 1" +:+ LF))
       ∧ (path l = "a%d" →
          Fmt.rendered line
          = Some ("a" +:+ String.string_of_list_ascii (Fmt.decimal n)
                    +:+ ": found %!d(MISSING) doc-comments, expected 1" +:+ LF)))
    ∧ (n = 1 →
       l' = l
       ∨ ∃ key, stderr l' = stderr l ++
                  [Fprintf ((pkgAnchor l key +:+ ": ")
                            +:+ "long doc-comments should go into doc.go file"
                            +:+ LF) []]
                ∧ issues l' = int_wrap (issues l + 1)).
Proof.
  intros Hsize n line.
  assert (int_wrap n = n) as Hn.
  { apply int_wrap_small. pose proof (docFiles_length_le entries). lia. }
  unfold CheckPackage_in. rewrite scanDocs_spec. fold n. rewrite Hn.
  destruct (n =? 1) eqn:E1; [|destruct (n =? 0) eqn:E0].
  - apply Z.eqb_eq in E1.
    destruct (last (docFiles entries)) as [[key f]|] eqn:El.
    + destruct (last_docFiles _ _ El) as [d Hd]. simpl in Hd.
      cbn [mbind option_bind from_option fst snd]. rewrite Hd.
      destruct (negb (String.eqb name "main")); cbn [mbind option_bind];
        [destruct (_ && _)|].
      * rewrite warnPkg_emit. eexists. split; [reflexivity|].
        split; [lia|]. split; [lia|]. intros _. right. exists key.
        by rewrite stderr_emit, issues_emit_one.
      * exists l. split; [done|]. split; [lia|]. split; [lia|]. by left.
      * exists l. split; [done|]. split; [lia|]. split; [lia|]. by left.
    + apply last_None in El. unfold n in E1. rewrite El in E1. done.
  - apply Z.eqb_eq in E0. rewrite warnPkg_emit. eexists. split; [reflexivity|].
    split; [|split; [lia|lia]]. intros _.
    by rewrite stderr_emit, issues_emit_one.
  - apply Z.eqb_neq in E1. apply Z.eqb_neq in E0.
    rewrite warnPkg_emit. eexists. split; [reflexivity|].
    split; [lia|]. split; [|lia]. intros _.
    rewrite stderr_emit, issues_emit_one. split; [done|]. split; [done|].
    split.
    + intros Hp. by apply Sprintf_count_plain.
    + intros Hp. unfold line, Fmt.rendered. rewrite Hp. apply Sprintf_count_percent.
Qed.

Lemma CheckPackage_doc_count_witness :
  ∃ l', CheckPackage Sample.twoDocsPkg Cases.percent = Some l'
        ∧ stderr l' = [Fprintf ("a%d: found %d doc-comments, expected 1" +:+ LF) [2]]
        ∧ issues l' = 1
        ∧ Fmt.rendered (Fprintf ("a%d: found %d doc-comments, expected 1" +:+ LF) [2])
          = Some ("a2: found %!d(MISSING) doc-comments, expected 1" +:+ LF).
Proof.
  destruct (CheckPackage_doc_count (map_to_list (Files Sample.twoDocsPkg)) "pkg"
              Cases.percent) as (l' & Hrun & _ & Hmany & _);
    [vm_compute; reflexivity|].
  exists l'. split; [exact Hrun|].
  destruct Hmany as (Hout & Hcount & _ & Hshown); [vm_compute; reflexivity|].
  split; [exact Hout|]. split; [exact Hcount|]. exact (Hshown eq_refl).
Defined.

(** ** Terminal punctuation *)

Lemma lastChar_ascii (s : string) (b : ascii) :
  lastByte s = Some b → rune b < 128 → Unicode.lastChar s = Some (rune b).
Proof.
  unfold lastByte, Unicode.lastChar. rewrite <- head_reverse.
  destruct (reverse (bytes s)) as [|b0 rest]; [done|]. intros [= ->] Hb.
  apply Z.ltb_lt in Hb. by rewrite Hb.
Qed.

(** What [checkEndsWithPunct] does with a single line-comment that ends in
    an ASCII byte: there the last byte is the last character. *)
Lemma checkEndsWithPunct_ascii (l : linter) (fn : FuncDecl) (doc : CommentGroup)
    (c : Comment) (b : ascii) :
  current l = Some fn → List doc = [c] →
  HasPrefix (Text c) "//" = true → lastByte (Text c) = Some b → rune b < 128 →
  Unicode.lastChar (Text c) = Some (rune b)
  ∧ checkEndsWithPunct doc l =
    Some (if Unicode.IsPunct (rune b) then l
          else emit [funcFinding l fn
                 "doc-comment should end with punctuation, usually with period"] l).
Proof.
  intros Hc Hd Hp Hb Hascii. split; [by apply lastChar_ascii|].
  by apply (checkEndsWithPunct_single l fn doc c b).
Qed.

(** C6. [checkEndsWithPunct] tests the last byte, not the last character:
    a single line-comment ending in U+00E1, a letter, has the last byte
    161, which read as a code point is punctuation, and nothing is
    reported. *)
Theorem checkEndsWithPunct_tests_last_byte :
  let l := setCurrent Sample.ola Sample.l0 in
  List Sample.olaDoc = [ {| Text := Sample.olaText |} ]
  ∧ HasPrefix Sample.olaText "//" = true
  ∧ Unicode.lastChar Sample.olaText = Some 225
  ∧ Unicode.IsPunct 225 = false
  ∧ lastByte Sample.olaText = Some "161"%char
  ∧ Unicode.IsPunct (rune "161") = true
  ∧ checkEndsWithPunct Sample.olaDoc l = Some l.
Proof.
  intros l. split; [reflexivity|].
  repeat (split; [vm_compute; reflexivity|]).
  rewrite (checkEndsWithPunct_single l Sample.ola Sample.olaDoc
             {| Text := Sample.olaText |} "161"%char);
    [|reflexivity | reflexivity | vm_compute; reflexivity | vm_compute; reflexivity].
  compute_term (Unicode.IsPunct (rune "161")). reflexivity.
Qed.

(** ** Leading space *)

(** One line-comment lacks the leading space and is no directive; the
    line written for it ends in "pragma", not in "directive". *)
Lemma checkSpacing_message_counterexample :
  let l := setCurrent Sample.plainSpacing Sample.l0 in
  List.filter lacksLeadingSpace (List Sample.plainSpacingDoc)
  = [ {| Text := "//Run starts it" |} ]
  ∧ (stderr <$> checkSpacing Sample.plainSpacingDoc l)
    = Some [Fprintf ("pkg/a.go:7:1: found comment without leading space and it's not a pragma" +:+ LF) []]
  ∧ (stderr <$> checkSpacing Sample.plainSpacingDoc l)
    ≠ Some [Fprintf ("pkg/a.go:7:1: found comment without leading space and it's not a directive" +:+ LF) []].
Proof.
  intros l.
  assert (List.filter lacksLeadingSpace (List Sample.plainSpacingDoc)
          = [ {| Text := "//Run starts it" |} ]) as Hone by (vm_compute; reflexivity).
  assert ((stderr <$> checkSpacing Sample.plainSpacingDoc l)
          = Some [Fprintf ("pkg/a.go:7:1: found comment without leading space and it's not a pragma" +:+ LF) []])
    as Hrun.
  { rewrite (checkSpacing_spec l Sample.plainSpacing) by reflexivity.
    compute_term (List.filter flaggedBySpacing (List Sample.plainSpacingDoc)).
    cbn [fmap option_fmap option_map]. rewrite stderr_emit. reflexivity. }
  split; [exact Hone|]. split; [exact Hrun|].
  rewrite Hrun. intros Heq. vm_compute in Heq. discriminate Heq.
Qed.

(** A line in which the directive shape stands further right is let
    pass, although it lacks the leading space and is no directive. *)
Lemma checkSpacing_directive_inside :
  let l := setCurrent Sample.spacing Sample.l0 in
  List.filter lacksLeadingSpace (List Sample.spacingDoc) = List Sample.spacingDoc
  ∧ (stderr <$> checkSpacing Sample.spacingDoc l)
    = Some [funcFinding l Sample.spacing
              "found comment without leading space and it's not a pragma"].
Proof.
  intros l. split; [vm_compute; reflexivity|].
  rewrite (checkSpacing_spec l Sample.spacing) by reflexivity.
  compute_term (List.filter flaggedBySpacing (List Sample.spacingDoc)).
  cbn [fmap option_fmap option_map]. rewrite stderr_emit. reflexivity.
Qed.

Lemma flaggedBySpacing_at_start (c : Comment) :
  directiveAtStartOnly c = true → flaggedBySpacing c = lacksLeadingSpace c.
Proof.
  unfold directiveAtStartOnly, flaggedBySpacing, lacksLeadingSpace.
  destruct (HasPrefix (Text c) "/*"); [done|].
  destruct (HasPrefix (Text c) "// "); [by rewrite !andb_false_r|].
  destruct (HasPrefix (Text c) ("//" +:+ TAB)); [by rewrite !andb_false_r|].
  cbn [orb]. by intros ->%Bool.eqb_prop.
Qed.

(** C7, as the code has it. Let every line-comment of the group that
    starts with neither slash-slash-space nor slash-slash-tab contain the
    directive shape at its start or not at all. Then [checkSpacing]
    returns, having appended to what was written one line "found comment
    without leading space and it's not a pragma" at the function's
    position per line-comment that is no directive and starts with neither
    slash-slash-space nor slash-slash-tab, in their order, and having
    counted each; block-comments, directives and spaced lines add
    nothing. *)
Theorem checkSpacing_per_line (l : linter) (fn : FuncDecl) (doc : CommentGroup) :
  current l = Some fn → regexp l = Some compiled →
  forallb directiveAtStartOnly (List doc) = true →
  ∃ l', checkSpacing doc l = Some l'
    ∧ stderr l' = stderr l ++
        map (λ _, Fprintf ((fset l (Pos fn) +:+ ": ")
                    +:+ "found comment without leading space and it's not a pragma"
                    +:+ LF) [])
            (List.filter lacksLeadingSpace (List doc))
    ∧ issues l' = bump (length (List.filter lacksLeadingSpace (List doc))) (issues l).
Proof.
  intros Hc Hr Hall. rewrite (checkSpacing_spec l fn) by done.
  assert (List.filter flaggedBySpacing (List doc)
          = List.filter lacksLeadingSpace (List doc)) as ->.
  { induction (List doc) as [|c cs IH]; [done|].
    cbn [forallb] in Hall. apply andb_true_iff in Hall as [Hc' Hcs].
    cbn [List.filter]. by rewrite (flaggedBySpacing_at_start c Hc'), (IH Hcs). }
  eexists. split; [reflexivity|].
  rewrite stderr_emit, issues_emit_bump, length_map. done.
Qed.

Lemma checkSpacing_per_line_witness :
  let l := setCurrent Cases.mixed Sample.l0 in
  ∃ l', checkSpacing Cases.mixedDoc l = Some l'
    ∧ stderr l' = [Fprintf ("pkg/a.go:7:1: found comment without leading space and it's not a pragma" +:+ LF) []]
    ∧ issues l' = 1.
Proof.
  intros l.
  destruct (checkSpacing_per_line l Cases.mixed Cases.mixedDoc eq_refl eq_refl)
    as (l' & Hrun & Hout & Hcount); [vm_compute; reflexivity|].
  exists l'. split; [exact Hrun|].
  revert Hout Hcount.
  compute_term (List.filter lacksLeadingSpace (List Cases.mixedDoc)).
  intros Hout Hcount. split; [exact Hout | exact Hcount].
Defined.

(** ** Block comments *)

(** The line written for a block comment names [/**/]. *)
Lemma checkNoMultiline_counterexample :
  let l := setCurrent Sample.block Sample.l0 in
  existsb isBlockComment (List Sample.blockDoc) = true
  ∧ checkNoMultiline Sample.blockDoc l
    = Some (emit [funcFinding l Sample.block
                    "should not use /**/ comments in doc-comments"] l)
  ∧ checkNoMultiline Sample.blockDoc l
    ≠ Some (emit [funcFinding l Sample.block
                    "should not use block comments in doc-comments"] l).
Proof.
  intros l.
  assert (existsb isBlockComment (List Sample.blockDoc) = true) as Hblock
    by (vm_compute; reflexivity).
  assert (checkNoMultiline Sample.blockDoc l
          = Some (emit [funcFinding l Sample.block
               "should not use /**/ comments in doc-comments"] l)) as Hrun.
  { rewrite (checkNoMultiline_spec l Sample.block) by reflexivity.
    by rewrite Hblock. }
  split; [exact Hblock|]. split; [exact Hrun|].
  rewrite Hrun. intros Heq.
  apply (f_equal (from_option stderr [])) in Heq.
  cbn [from_option] in Heq. rewrite !stderr_emit in Heq.
  apply app_inv_head in Heq. vm_compute in Heq. discriminate Heq.
Qed.

(** C8, as the code has it. A comment group with at least one
    block-comment makes [checkNoMultiline] write exactly one line,
    "should not use /**/ comments in doc-comments", however many
    block-comments follow the first; without a block-comment it writes
    nothing. *)
Theorem checkNoMultiline_once (l : linter) (fn : FuncDecl) (doc : CommentGroup) :
  current l = Some fn →
  (existsb isBlockComment (List doc) = true →
   checkNoMultiline doc l
   = Some (emit [funcFinding l fn "should not use /**/ comments in doc-comments"] l))
  ∧ (existsb isBlockComment (List doc) = false → checkNoMultiline doc l = Some l).
Proof.
  intros Hc. rewrite (checkNoMultiline_spec l fn) by done.
  split; intros ->; done.
Qed.

Lemma checkNoMultiline_once_witness :
  let l := setCurrent Sample.block Sample.l0 in
  checkNoMultiline Sample.blockDoc l
  = Some (emit [funcFinding l Sample.block
                  "should not use /**/ comments in doc-comments"] l).
Proof.
  intros l.
  apply (proj1 (checkNoMultiline_once l Sample.block Sample.blockDoc eq_refl)).
  vm_compute. reflexivity.
Defined.

(** * Further properties *)

Module OccurrenceFacts.

Lemma drop_split {A} (s y : list A) (n : nat) :
  drop n s = y → y ≠ [] → s = take n s ++ y ∧ length (take n s) = n.
Proof.
  intros Hd Hy. split; [by rewrite <- Hd, take_drop|].
  rewrite length_take. destruct (decide (n ≤ length s)%nat); [lia|].
  rewrite drop_ge in Hd by lia. congruence.
Qed.

Lemma split_drop {A} (pre y : list A) : drop (length pre) (pre ++ y) = y.
Proof. by rewrite drop_app_length. Qed.

Lemma predicatePrefixAt_split name :
  (∃ n, predicatePrefixAt name n) ↔
  ∃ pre p c post, p ∈ allPrefixes ∧ upperOrDigit c = true
                  ∧ name = pre ++ bytes p ++ c :: post.
Proof.
  split.
  - intros (n & p & c & t & Hp & Hc & Hd).
    apply drop_split in Hd as [Hs _]; [|by destruct (bytes p)].
    exists (take n name), p, c, t. done.
  - intros (pre & p & c & post & Hp & Hc & ->).
    exists (length pre), p, c, post. by rewrite split_drop.
Qed.

Lemma antipatternAt_split line n :
  antipatternAt line n ↔
  ∃ pre p post, n = length pre ∧ p ∈ patterns
                ∧ line = pre ++ bytes (" " +:+ p +:+ " ") ++ post.
Proof.
  unfold antipatternAt, occursAt. split.
  - intros (p & Hp & t & Hd). apply drop_split in Hd as [Hs Hn]; [|done].
    exists (take n line), p, t. done.
  - intros (pre & p & post & -> & Hp & ->). exists p. split; [done|].
    exists post. by rewrite split_drop.
Qed.

Lemma directiveAt_split text :
  (∃ n, directiveAt text n) ↔
  ∃ pre id post, id ≠ [] ∧ Forall (λ c, word c = true) id
                 ∧ text = pre ++ bytes "//" ++ id ++ bytes ": " ++ post.
Proof.
  split.
  - intros (n & id & t & Hne & Hid & Hd). apply drop_split in Hd as [Hs _]; [|done].
    exists (take n text), id, t. done.
  - intros (pre & id & post & Hne & Hid & ->).
    exists (length pre), id, post. by rewrite split_drop.
Qed.

End OccurrenceFacts.

Import OccurrenceFacts.

(** ** The three patterns *)

(** X1. The pattern [initRegexps] builds for predicate names matches a
    name exactly when, somewhere in it, one of Has, Is, Contains, Can or
    their lower-case forms is followed by an upper-case ASCII letter or a
    digit; what comes before and after does not matter. *)
Theorem predPrefix_matches_anywhere (name : string) :
  MatchString (predPrefix compiled) name = true ↔
  ∃ pre p c post,
    p ∈ ["Has"; "Is"; "Contains"; "Can"; "has"; "is"; "contains"; "can"]
    ∧ upperOrDigit c = true
    ∧ bytes name = pre ++ bytes p ++ c :: post.
Proof.
  change (MatchString predPrefixPat name = true ↔
          ∃ pre p c post, p ∈ allPrefixes ∧ upperOrDigit c = true
                          ∧ bytes name = pre ++ bytes p ++ c :: post).
  by rewrite MatchString_predPrefix, predicatePrefixAt_split.
Qed.

(** X2. On the antipattern [FindStringIndex] returns the byte offset of
    the leftmost place where one of the twelve phrases stands with a space
    before and after it, and [nil] exactly when there is no such place. *)
Theorem predAntipattern_leftmost (line : string) :
  (∀ k, FindStringIndex (predAntipattern compiled) line = Some k ↔
        ∃ pre p post,
          k = Z.of_nat (length pre) ∧ p ∈ patterns
          ∧ bytes line = pre ++ bytes (" " +:+ p +:+ " ") ++ post
          ∧ ∀ pre' p' post',
              p' ∈ patterns →
              bytes line = pre' ++ bytes (" " +:+ p' +:+ " ") ++ post' →
              (length pre ≤ length pre')%nat)
  ∧ (FindStringIndex (predAntipattern compiled) line = None ↔
     ∀ pre p post,
       p ∈ patterns → bytes line ≠ pre ++ bytes (" " +:+ p +:+ " ") ++ post).
Proof.
  cbn [predAntipattern compiled]. split.
  - intros k. rewrite FindStringIndex_predAntipattern. split.
    + intros (n & -> & (pre & p & post & -> & Hp & Hl)%antipatternAt_split & Hmin).
      exists pre, p, post. repeat (split; [done|]).
      intros pre' p' post' Hp' Hl'.
      destruct (decide (length pre ≤ length pre')%nat) as [|Hlt]; [done|].
      exfalso. apply (Hmin (length pre')); [lia|].
      apply antipatternAt_split. exists pre', p', post'. done.
    + intros (pre & p & post & -> & Hp & Hl & Hmin). exists (length pre).
      split; [done|]. split.
      * apply antipatternAt_split. exists pre, p, post. done.
      * intros m Hm (pre' & p' & post' & -> & Hp' & Hl')%antipatternAt_split.
        specialize (Hmin pre' p' post' Hp' Hl'). lia.
  - rewrite FindStringIndex_predAntipattern_None. split.
    + intros H pre p post Hp Hl. apply (H (length pre)).
      apply antipatternAt_split. exists pre, p, post. done.
    + intros H n (pre & p & post & _ & Hp & Hl)%antipatternAt_split.
      by apply (H pre p post).
Qed.

(** X3. The directive pattern matches a comment exactly when, somewhere
    in it, two slashes are followed by one or more word characters, a
    colon and a space; the match need not start the comment and the
    space after the colon is required. *)
Theorem directive_matches_anywhere (text : string) :
  MatchString (directive compiled) text = true ↔
  ∃ pre id post,
    id ≠ [] ∧ Forall (λ c, word c = true) id
    ∧ bytes text = pre ++ bytes "//" ++ id ++ bytes ": " ++ post.
Proof.
  cbn [directive compiled]. by rewrite MatchString_directive, directiveAt_split.
Qed.

(** ** The package comment, further *)

(** X4. What [CheckPackage] does is the same for every order in which
    the map of files is iterated, for a package of fewer than [2 ^ 63]
    files. *)
Theorem CheckPackage_any_order (pkg : Package) (entries : list (string * File))
    (l : linter) :
  entries ≡ₚ map_to_list (Files pkg) →
  Z.of_nat (size (Files pkg)) < 2 ^ 63 →
  CheckPackage_in entries (PkgName pkg) l = CheckPackage pkg l.
Proof.
  intros Hperm Hsize. unfold CheckPackage. apply CheckPackage_in_order; [done|].
  by rewrite (Permutation_length Hperm), length_map_to_list.
Qed.

Lemma CheckPackage_any_order_witness :
  CheckPackage_in
    [ ("pkg.go", Sample.fileWith (Some (Sample.longDoc 101)) []);
      ("util.go", Sample.fileWith None []) ]
    "pkg" Sample.l0
  = CheckPackage Sample.longPkg Sample.l0.
Proof.
  apply (CheckPackage_any_order Sample.longPkg
           [ ("pkg.go", Sample.fileWith (Some (Sample.longDoc 101)) []);
             ("util.go", Sample.fileWith None []) ]).
  - vm_compute. apply perm_swap.
  - vm_compute. reflexivity.
Defined.

(** X5. [CheckPackage] never panics and writes at most one line per
    package, whatever the files are. *)
Theorem CheckPackage_at_most_one (entries : list (string * File))
    (name : string) (l : linter) :
  ∃ outs, (length outs ≤ 1)%nat
          ∧ CheckPackage_in entries name l = Some (emit outs l).
Proof.
  assert (∀ o, ∃ outs, (length outs ≤ 1)%nat
                       ∧ Some (emit [o] l) = Some (emit outs l)) as Hone.
  { intros o. exists [o]. split; [simpl; lia | done]. }
  assert (∃ outs, (length outs ≤ 1)%nat ∧ Some l = Some (emit outs l)) as Hnone.
  { exists []. split; [simpl; lia | done]. }
  unfold CheckPackage_in. rewrite scanDocs_spec.
  destruct (_ =? 1) eqn:E1.
  - destruct (negb _); [|done].
    destruct (last (docFiles entries)) as [e|] eqn:El.
    + destruct (last_docFiles _ _ El) as [d Hd]. simpl. rewrite Hd. simpl.
      destruct (_ && _); [|done]. rewrite warnPkg_emit. apply Hone.
    + apply last_None in El. rewrite El in E1. done.
  - destruct (_ =? 0); rewrite warnPkg_emit; apply Hone.
Qed.

Module CheckFacts.

Lemma emit_eq_inv outs l : emit outs l = l → outs = [].
Proof.
  intros H. apply (f_equal stderr) in H. rewrite stderr_emit in H.
  rewrite <- (app_nil_r (stderr l)) in H at 2. by apply app_inv_head in H.
Qed.

Lemma Some_emit_inv outs l : Some (emit outs l) = Some l → outs = [].
Proof. intros H. apply (emit_eq_inv outs l). congruence. Qed.

Lemma funcFinding_setCurrent l fn fn' msg :
  funcFinding (setCurrent fn' l) fn msg = funcFinding l fn msg.
Proof. done. Qed.

Lemma flaggedBySpacing_false c :
  flaggedBySpacing c = false ↔ spacingExempt c.
Proof.
  unfold flaggedBySpacing, spacingExempt.
  rewrite <- MatchString_directive.
  destruct (HasPrefix (Text c) "/*"), (MatchString directivePat (Text c)),
    (HasPrefix (Text c) "// "), (HasPrefix (Text c) ("//" +:+ TAB));
    cbn [negb andb]; split; try done; auto; intros [|[|[|]]]; done.
Qed.

Lemma filter_nil_iff {A} (f : A → bool) (xs : list A) :
  List.filter f xs = [] ↔ Forall (λ x, f x = false) xs.
Proof.
  induction xs as [|x xs IH]; cbn [List.filter].
  - split; [constructor | done].
  - destruct (f x) eqn:E.
    + split; [done | intros H; inversion H; congruence].
    + rewrite IH. split; [by constructor | by inversion 1].
Qed.

(** A block-comment costs the spacing check a line: together the two
    checks write no more lines than the comment has. *)
Lemma block_or_flagged cs :
  (length (List.filter flaggedBySpacing cs)
   + (if existsb isBlockComment cs then 1 else 0) ≤ length cs)%nat.
Proof.
  induction cs as [|c cs IH]; [simpl; lia|].
  cbn [List.filter existsb length].
  unfold flaggedBySpacing at 1. unfold isBlockComment at 1.
  destruct (HasPrefix (Text c) "/*"); cbn [negb andb orb].
  - destruct (existsb isBlockComment cs); lia.
  - destruct (_ && _); cbn [length]; destruct (existsb isBlockComment cs); lia.
Qed.

(** What the three checks after [checkBoolFuncStyle] write, message by
    message. *)
Lemma otherChecks_messages l fn doc :
  current l = Some fn → regexp l = Some compiled →
  ∃ ms, Forall (λ m, m ∈ funcMessages) ms
        ∧ (length ms ≤ length (List doc) + 1)%nat
        ∧ ∀ pre,
            (checkNoMultiline doc (emit pre l) ≫= checkEndsWithPunct doc)
              ≫= checkSpacing doc
            = Some (emit (pre ++ map (funcFinding l fn) ms) l).
Proof.
  intros Hc Hr.
  set (mb := if existsb isBlockComment (List doc)
             then ["should not use /**/ comments in doc-comments"] else []).
  set (md := map (λ _ : Comment,
                    "found comment without leading space and it's not a pragma")
                 (List.filter flaggedBySpacing (List doc))).
  assert (∃ mc, Forall (λ m, m ∈ funcMessages) mc ∧ (length mc ≤ 1)%nat ∧
            ∀ pre, checkEndsWithPunct doc (emit pre l)
                   = Some (emit (pre ++ map (funcFinding l fn) mc) l))
    as (mc & Hmc & Hlc & H2).
  { assert ((∀ pre, checkEndsWithPunct doc (emit pre l) = Some (emit pre l)) →
            ∃ mc, Forall (λ m, m ∈ funcMessages) mc ∧ (length mc ≤ 1)%nat ∧
              ∀ pre, checkEndsWithPunct doc (emit pre l)
                     = Some (emit (pre ++ map (funcFinding l fn) mc) l)) as Hquiet.
    { intros H. exists []. split; [constructor|]. split; [simpl; lia|].
      intros pre. by rewrite app_nil_r. }
    destruct (List doc) as [|c [|c' cs]] eqn:E.
    - apply Hquiet. intros pre. apply checkEndsWithPunct_exempt. left. by rewrite E.
    - destruct (HasPrefix (Text c) "//") eqn:Hp.
      + destruct (HasPrefix_lastByte _ Hp) as [b Hb].
        destruct (Unicode.IsPunct (rune b)) eqn:Hpunct.
        * apply Hquiet. intros pre.
          rewrite (checkEndsWithPunct_single _ fn doc c b)
            by (done || by rewrite current_emit). by rewrite Hpunct.
        * exists ["doc-comment should end with punctuation, usually with period"].
          split; [constructor; [message_in | constructor]|]. split; [simpl; lia|].
          intros pre.
          rewrite (checkEndsWithPunct_single _ fn doc c b)
            by (done || by rewrite current_emit).
          rewrite Hpunct. by rewrite funcFinding_emit, <- emit_app.
      + apply Hquiet. intros pre.
        apply checkEndsWithPunct_exempt. right. exists c. by rewrite E.
    - apply Hquiet. intros pre. apply checkEndsWithPunct_exempt. left. by rewrite E. }
  exists (mb ++ mc ++ md). split; [|split].
  - apply Forall_app. split.
    + unfold mb. destruct (existsb _ _); [|constructor].
      constructor; [message_in | constructor].
    + apply Forall_app. split; [done|]. unfold md.
      apply Forall_forall. intros m (c & -> & _)%list_elem_of_fmap. message_in.
  - rewrite !length_app. unfold mb, md. rewrite length_map.
    pose proof (block_or_flagged (List doc)).
    destruct (existsb isBlockComment (List doc)); cbn [length] in *; lia.
  - intros pre.
    rewrite (checkNoMultiline_spec _ fn) by (by rewrite current_emit).
    rewrite funcFinding_emit.
    replace (if existsb isBlockComment (List doc) then _ else emit pre l)
      with (emit (pre ++ map (funcFinding l fn) mb) l)
      by (unfold mb; destruct (existsb _ _);
          [by rewrite emit_app | by rewrite app_nil_r]).
    cbn [mbind option_bind]. rewrite H2. cbn [mbind option_bind].
    rewrite (checkSpacing_spec _ fn)
      by (by rewrite ?current_emit, ?regexp_emit).
    rewrite funcFinding_emit, <- emit_app. do 2 f_equal.
    rewrite !map_app, <- !app_assoc. do 3 f_equal.
    unfold md. by rewrite map_map.
Qed.

(** What the four checks write for one function, message by message. *)
Lemma checkDecl_messages (l : linter) (decl : FuncDecl) (doc : CommentGroup) :
  Doc decl = Some doc → regexp l = Some compiled → List doc ≠ [] →
  ∃ ms, Forall (λ m, m ∈ funcMessages) ms
        ∧ (length ms ≤ length (List doc) + 3)%nat
        ∧ checkDecl (DFunc decl) l
          = Some (emit (map (funcFinding l decl) ms) (setCurrent decl l)).
Proof.
  intros Hd Hr Hne. set (l0 := setCurrent decl l).
  destruct (checkBoolFuncStyle_emits l0 decl doc) as (a1 & a2 & H1 & H2 & Ha & _);
    [done..|].
  destruct (otherChecks_messages l0 decl doc) as (ms & Hms & Hlen & Hrest); [done..|].
  assert (∃ ma, Forall (λ m, m ∈ funcMessages) ma ∧ (length ma ≤ 2)%nat
                ∧ a1 ++ a2 = map (funcFinding l decl) ma) as (ma & Hma & Hla & Hmap).
  { assert ("bad predicate comment" ∈ funcMessages) by message_in.
    destruct H1 as [-> | ->], H2 as [-> | ->].
    - exists []. split; [constructor|]. split; [simpl; lia | done].
    - exists ["bad predicate comment"].
      split; [by repeat constructor|]. split; [simpl; lia | done].
    - exists ["bad predicate comment"].
      split; [by repeat constructor|]. split; [simpl; lia | done].
    - exists ["bad predicate comment"; "bad predicate comment"].
      split; [by repeat constructor|]. split; [simpl; lia | done]. }
  exists (ma ++ ms). split; [by apply Forall_app|]. split.
  { rewrite length_app. lia. }
  unfold checkDecl. rewrite Hd. fold l0. rewrite Ha. cbn [mbind option_bind].
  specialize (Hrest (a1 ++ a2)). rewrite Hmap in Hrest |- *.
  rewrite map_app.
  destruct (checkNoMultiline doc _) as [l2|]; [|done]. cbn [mbind option_bind] in *.
  destruct (checkEndsWithPunct doc l2) as [l3|]; [|done]. done.
Qed.

End CheckFacts.

Import CheckFacts.

(** ** The checks of a documented function, further *)

(** X7. With a current function set, [checkEndsWithPunct] never indexes
    outside the line: it returns for every comment group, also an empty
    one, writes at most one line, and writes one only for a group of
    exactly one line-comment. *)
Theorem checkEndsWithPunct_in_range (l : linter) (fn : FuncDecl)
    (doc : CommentGroup) :
  current l = Some fn →
  ∃ outs, (length outs ≤ 1)%nat
          ∧ checkEndsWithPunct doc l = Some (emit outs l)
          ∧ (outs ≠ [] →
             ∃ c, List doc = [c] ∧ HasPrefix (Text c) "//" = true).
Proof.
  intros Hc.
  assert (checkEndsWithPunct doc l = Some l →
          ∃ outs, (length outs ≤ 1)%nat
                  ∧ checkEndsWithPunct doc l = Some (emit outs l)
                  ∧ (outs ≠ [] →
                     ∃ c, List doc = [c] ∧ HasPrefix (Text c) "//" = true))
    as Hquiet.
  { intros H. exists []. split; [simpl; lia|]. split; [done | done]. }
  destruct (List doc) as [|c [|c' cs]] eqn:E.
  - apply Hquiet, checkEndsWithPunct_exempt. left. by rewrite E.
  - destruct (HasPrefix (Text c) "//") eqn:Hp.
    + destruct (HasPrefix_lastByte _ Hp) as [b Hb].
      pose proof (checkEndsWithPunct_single l fn doc c b Hc E Hp Hb) as Hs.
      destruct (Unicode.IsPunct (rune b)); [by apply Hquiet|].
      eexists. split; [|split; [exact Hs|]]; [simpl; lia | eauto].
    + apply Hquiet, checkEndsWithPunct_exempt. right. exists c. by rewrite E.
  - apply Hquiet, checkEndsWithPunct_exempt. left. by rewrite E.
Qed.

Lemma checkEndsWithPunct_in_range_witness :
  ∃ outs, (length outs ≤ 1)%nat
          ∧ checkEndsWithPunct Inputs.emptyDoc
              (setCurrent Inputs.emptyDocFunc Sample.l0)
            = Some (emit outs (setCurrent Inputs.emptyDocFunc Sample.l0))
          ∧ (outs ≠ [] →
             ∃ c, List Inputs.emptyDoc = [c] ∧ HasPrefix (Text c) "//" = true).
Proof.
  apply (checkEndsWithPunct_in_range _ Inputs.emptyDocFunc Inputs.emptyDoc).
  reflexivity.
Defined.

(** X8. [checkSpacing] writes nothing exactly when every comment is a
    block-comment, has the directive shape somewhere in its text, or
    starts with slash-slash-space or slash-slash-tab. *)
Theorem checkSpacing_silent_iff (l : linter) (fn : FuncDecl) (doc : CommentGroup) :
  current l = Some fn → regexp l = Some compiled →
  (checkSpacing doc l = Some l ↔ Forall spacingExempt (List doc)).
Proof.
  intros Hc Hr. rewrite (checkSpacing_spec l fn) by done.
  rewrite <- (Forall_iff _ (List doc) _ flaggedBySpacing_false), <- filter_nil_iff.
  split.
  - intros [= H%emit_eq_inv]. by apply fmap_nil_inv in H.
  - by intros ->.
Qed.

Lemma checkSpacing_silent_iff_witness :
  checkSpacing Sample.hasFooDoc (setCurrent Sample.hasFoo Sample.l0)
  = Some (setCurrent Sample.hasFoo Sample.l0)
  ↔ Forall spacingExempt (List Sample.hasFooDoc).
Proof.
  apply (checkSpacing_silent_iff _ Sample.hasFoo Sample.hasFooDoc);
    reflexivity.
Defined.

(** X9. [CheckFile] passes over every declaration that is not a function
    with a comment: a file made of such declarations leaves the linter as
    it was, even before [initRegexps] has run, whatever comments the
    general declarations carry. *)
Theorem CheckFile_skips_undocumented (f : File) (l : linter) :
  forallb undocumented (Decls f) = true → CheckFile f l = Some l.
Proof.
  unfold CheckFile. induction (Decls f) as [|d ds IH]; [done|].
  cbn [forallb]. intros [Hd Hds]%andb_true_iff. cbn [CheckFile_loop].
  destruct d as [fd|doc]; cbn [checkDecl undocumented] in *.
  - destruct (Doc fd); [done|]. by apply IH.
  - by apply IH.
Qed.

Lemma CheckFile_skips_undocumented_witness :
  CheckFile Inputs.quietFile (newLinter "pkg" Sample.pos)
  = Some (newLinter "pkg" Sample.pos).
Proof.
  apply (CheckFile_skips_undocumented Inputs.quietFile). reflexivity.
Defined.

(** X10. For a function with a non-empty comment, the four checks return
    and every line they write is anchored at the position of the function
    and carries one of the four messages; there are at most
    [len(doc.List) + 3] of them. *)
Theorem checkDecl_lines (l : linter) (decl : FuncDecl) (doc : CommentGroup) :
  Doc decl = Some doc → regexp l = Some compiled → List doc ≠ [] →
  ∃ ms, Forall (λ m, m ∈ funcMessages) ms
        ∧ (length ms ≤ length (List doc) + 3)%nat
        ∧ checkDecl (DFunc decl) l
          = Some (emit (map (funcFinding l decl) ms) (setCurrent decl l)).
Proof. apply checkDecl_messages. Qed.

Lemma checkDecl_lines_witness :
  ∃ ms, Forall (λ m, m ∈ funcMessages) ms
        ∧ (length ms ≤ length (List Sample.isOKDoc) + 3)%nat
        ∧ checkDecl (DFunc Sample.isOK) Sample.l0
          = Some (emit (map (funcFinding Sample.l0 Sample.isOK) ms)
                       (setCurrent Sample.isOK Sample.l0)).
Proof.
  apply (checkDecl_lines Sample.l0 Sample.isOK Sample.isOKDoc);
    [reflexivity | reflexivity | discriminate].
Defined.

(** X11. With the current function and the patterns set,
    [checkBoolFuncStyle] panics exactly when the function is a predicate
    and its comment group is empty, the one case in which [doc.List[0]]
    is out of range. *)
Theorem checkBoolFuncStyle_panics_iff (l : linter) (fn : FuncDecl)
    (doc : CommentGroup) :
  current l = Some fn → regexp l = Some compiled →
  (checkBoolFuncStyle doc l = None ↔ isBooleanFunc fn = true ∧ List doc = []).
Proof.
  intros Hc Hr. destruct (isBooleanFunc fn) eqn:Hb.
  - destruct (List doc) as [|c cs] eqn:Hd.
    + split; [done|]. intros _. unfold checkBoolFuncStyle.
      rewrite Hc. simpl. by rewrite Hb, Hd.
    + destruct (checkBoolFuncStyle_emits l fn doc) as (a1 & a2 & _ & _ & Ha & _);
        [done | done | by rewrite Hd |].
      rewrite Ha. split; [done | by intros [_ [=]]].
  - rewrite (checkBoolFuncStyle_not_predicate l fn) by done.
    split; [done | by intros [[=] _]].
Qed.

Lemma checkBoolFuncStyle_panics_iff_witness :
  checkBoolFuncStyle Inputs.emptyDoc (setCurrent Inputs.emptyDocFunc Sample.l0)
  = None
  ↔ isBooleanFunc Inputs.emptyDocFunc = true ∧ List Inputs.emptyDoc = [].
Proof.
  apply (checkBoolFuncStyle_panics_iff _ Inputs.emptyDocFunc Inputs.emptyDoc);
    reflexivity.
Defined.

Module PhraseFacts.

Lemma phrase_bytes p :
  bytes (" " +:+ p +:+ " ") = " "%char :: bytes p ++ [" "%char].
Proof. change (" " +:+ p +:+ " ") with (String " " (p +:+ " ")). simpl. by rewrite bytes_app. Qed.

(** Two texts that agree up to their first space have the same first word. *)
Lemma first_word_inj (a b x y : list ascii) :
  a ++ " "%char :: x = b ++ " "%char :: y →
  " "%char ∉ a → " "%char ∉ b → a = b.
Proof.
  revert b. induction a as [|c a IH]; intros [|d b] H Ha Hb.
  - done.
  - injection H as <- _. exfalso. apply Hb. constructor.
  - injection H as -> _. exfalso. apply Ha. constructor.
  - injection H as -> H. f_equal. apply (IH b H).
    + intros Hin. apply Ha. by constructor.
    + intros Hin. apply Hb. by constructor.
Qed.

Lemma patterns_first_word q :
  q ∈ patterns →
  ∃ w q2, w ∈ firstWords ∧ bytes q = bytes w ++ " "%char :: q2.
Proof.
  unfold patterns. intros H.
  repeat (apply elem_of_cons in H as [-> | H]);
    [..| by apply elem_of_nil in H].
  all: first
    [ exists "returns"; eexists; split; [message_in | reflexivity]
    | exists "tells"; eexists; split; [message_in | reflexivity]
    | exists "tests"; eexists; split; [message_in | reflexivity]
    | exists "determines"; eexists; split; [message_in | reflexivity]
    | exists "indicates"; eexists; split; [message_in | reflexivity] ].
Qed.

Lemma firstWords_no_space w : w ∈ firstWords → " "%char ∉ bytes w.
Proof.
  unfold firstWords. intros H.
  repeat (apply elem_of_cons in H as [-> | H]);
    [..| by apply elem_of_nil in H];
    (intros Hin; simpl in Hin;
     repeat (apply elem_of_cons in Hin as [Hin | Hin]; [discriminate|]);
     by apply elem_of_nil in Hin).
Qed.

(** A phrase that stands right after a word has that word as its first
    word. *)
Lemma phrase_after_space (a x t : list ascii) q :
  q ∈ patterns → " "%char ∉ a →
  a ++ " "%char :: x = bytes q ++ " "%char :: t →
  ∃ w, w ∈ firstWords ∧ a = bytes w.
Proof.
  intros (w & q2 & Hw & Hq)%patterns_first_word Ha H.
  rewrite Hq, <- app_assoc in H. cbn [app] in H.
  exists w. split; [done|].
  apply (first_word_inj _ _ _ _ H Ha). by apply firstWords_no_space.
Qed.

Lemma drop_slashes (k : nat) (s : list ascii) :
  drop (3 + k) (bytes "// " ++ s) = drop k s.
Proof. done. Qed.

(** In ["// " ++ name ++ rest] no phrase starts inside the name. *)
Lemma no_phrase_inside_name (name rest : list ascii) (m : nat) :
  " "%char ∉ name → (3 ≤ m < 3 + length name)%nat →
  ¬ antipatternAt (bytes "// " ++ name ++ rest) m.
Proof.
  intros Hname [Hlo Hhi] (p & _ & t & Hd).
  replace m with (3 + (m - 3))%nat in Hd by lia.
  rewrite drop_slashes, drop_app_le in Hd by lia.
  destruct (lookup_lt_is_Some_2 name (m - 3)) as [x Hx]; [lia|].
  rewrite (drop_S _ _ _ Hx), phrase_bytes in Hd. injection Hd as -> _.
  apply Hname. by apply list_elem_of_lookup_2 in Hx.
Qed.

Lemma no_phrase_at_slashes (s : list ascii) (m : nat) :
  (m < 2)%nat → ¬ antipatternAt (bytes "// " ++ s) m.
Proof.
  intros Hm (p & _ & t & Hd). rewrite phrase_bytes in Hd.
  destruct m as [|[|m]]; [discriminate Hd | discriminate Hd | lia].
Qed.

End PhraseFacts.

Import PhraseFacts.

(** ** The predicate comment, further *)

(** X12. For a predicate whose name is an identifier, a first line that
    starts with ["// <Name> reports whether "] is reported by neither
    step of [checkBoolFuncStyle], whatever follows on the line. *)
Theorem canonical_comment_passes (l : linter) (fn : FuncDecl)
    (doc : CommentGroup) (c : Comment) (rest : list ascii) :
  current l = Some fn → regexp l = Some compiled →
  isBooleanFunc fn = true → List doc !! 0%nat = Some c →
  bytes (Text c)
    = bytes "// " ++ bytes (Name fn) ++ bytes " reports whether " ++ rest →
  " "%char ∉ bytes (Name fn) → bytes (Name fn) ≠ [] →
  len (Text c) < 2 ^ 63 →
  checkBoolFuncStyle doc l = Some l.
Proof.
  intros Hc Hr Hb Hd Hline Hsp Hne Hlen.
  rewrite (checkBoolFuncStyle_steps l fn doc c) by done.
  assert (antipatternCheck compiled (Text c) (Name fn) l = Some l) as ->.
  { unfold antipatternCheck. cbn [predAntipattern compiled].
    destruct (FindStringIndex _ _) as [k|] eqn:Hk; [|done]. cbv zeta.
    pose proof (FindStringIndex_bounds _ _ _ Hk) as Hk0.
    apply FindStringIndex_predAntipattern in Hk as (n & -> & Hat & _).
    assert (len (Text c) = 3 + len (Name fn) + 17 + Z.of_nat (length rest)) as Hl.
    { unfold len. rewrite Hline, !length_app. simpl. lia. }
    unfold len in *. rewrite int_wrap_small by lia.
    destruct (_ && _) eqn:E; [|done]. exfalso.
    apply andb_true_iff in E as [E1%Z.ltb_lt E2%Z.leb_le].
    rewrite Hline in Hat. set (name := bytes (Name fn)) in *.
    destruct Hat as (p & Hp & t & Hdrop). rewrite phrase_bytes in Hdrop.
    assert (n = 2 + length name ∨ n = 3 + length name ∨ n = 4 + length name)%nat
      as [-> | [-> | ->]] by lia.
    - destruct (exists_last Hne) as (name' & x & Hx). rewrite Hx in Hdrop, Hsp.
      rewrite length_app in Hdrop. cbn [length] in Hdrop.
      replace (2 + (length name' + 1))%nat with (3 + length name')%nat in Hdrop by lia.
      rewrite drop_slashes, <- app_assoc, drop_app_length in Hdrop.
      injection Hdrop as -> _. apply Hsp. apply elem_of_app. right. constructor.
    - rewrite drop_slashes, drop_app_length in Hdrop.
      injection Hdrop as Hdrop. rewrite <- app_assoc in Hdrop.
      assert (bytes "reports" ++ " "%char :: bytes "whether " ++ rest
              = bytes p ++ " "%char :: t) as Hword by exact Hdrop.
      apply phrase_after_space in Hword as (w & Hw & Hrw); [|done|].
      + apply bytes_inj in Hrw. subst w. unfold firstWords in Hw.
        repeat (apply elem_of_cons in Hw as [Hw | Hw]; [discriminate|]).
        by apply elem_of_nil in Hw.
      + intros Hin. simpl in Hin.
        repeat (apply elem_of_cons in Hin as [Hin | Hin]; [discriminate|]).
        by apply elem_of_nil in Hin.
    - replace (4 + length name)%nat with (3 + S (length name))%nat in Hdrop by lia.
      rewrite drop_slashes, drop_app_ge in Hdrop by lia.
      replace (S (length name) - length name)%nat with 1%nat in Hdrop by lia.
      discriminate Hdrop. }
  cbn [mbind option_bind]. rewrite (predPrefixCheck_spec l fn) by done.
  replace (Contains (Text c) (Name fn +:+ " reports whether ")) with true.
  { by rewrite andb_false_r. }
  symmetry. apply contains_spec. exists (bytes "// "), rest.
  rewrite bytes_app, <- app_assoc. exact Hline.
Qed.

Lemma canonical_comment_passes_witness :
  checkBoolFuncStyle Sample.hasFooDoc (setCurrent Sample.hasFoo Sample.l0)
  = Some (setCurrent Sample.hasFoo Sample.l0).
Proof.
  apply (canonical_comment_passes _ Sample.hasFoo Sample.hasFooDoc
           {| Text := "// HasFoo reports whether foo holds." |}
           (bytes "foo holds."));
    [reflexivity | reflexivity | reflexivity | reflexivity | reflexivity
    | | discriminate | reflexivity].
  intros Hin. vm_compute in Hin.
  repeat (apply elem_of_cons in Hin as [Hin | Hin]; [discriminate|]).
  by apply elem_of_nil in Hin.
Defined.

(** X13. For a predicate whose name is an identifier other than the
    first word of a phrase, a first line ["// <Name> <phrase> ..."] is
    reported by the antipattern step: the phrase is found right after the
    name, three bytes past the length of the name. The prefix step may
    add a second line. *)
Theorem phrase_after_name_reported (l : linter) (fn : FuncDecl)
    (doc : CommentGroup) (c : Comment) (p : string) (rest : list ascii) :
  current l = Some fn → regexp l = Some compiled →
  isBooleanFunc fn = true → List doc !! 0%nat = Some c →
  p ∈ patterns →
  bytes (Text c)
    = bytes "// " ++ bytes (Name fn) ++ bytes (" " +:+ p +:+ " ") ++ rest →
  " "%char ∉ bytes (Name fn) → Name fn ∉ firstWords →
  len (Text c) < 2 ^ 63 →
  FindStringIndex (predAntipattern compiled) (Text c) = Some (3 + len (Name fn))
  ∧ ∃ more,
      (more = [] ∨ more = [funcFinding l fn "bad predicate comment"])
      ∧ checkBoolFuncStyle doc l
        = Some (emit (funcFinding l fn "bad predicate comment" :: more) l).
Proof.
  intros Hc Hr Hb Hd Hp Hline Hsp Hfw Hlen.
  assert (FindStringIndex predAntipatternPat (Text c) = Some (3 + len (Name fn)))
    as Hfind.
  { apply FindStringIndex_predAntipattern. exists (3 + length (bytes (Name fn)))%nat.
    split; [unfold len; lia|]. rewrite Hline. split.
    - exists p. split; [done|]. exists rest.
      by rewrite drop_slashes, drop_app_length.
    - intros m Hm. destruct (decide (m < 2)%nat); [by apply no_phrase_at_slashes|].
      destruct (decide (m = 2)%nat) as [-> | ?];
        [|apply no_phrase_inside_name; [done | lia]].
      intros (q & Hq & t & Hdrop). rewrite !phrase_bytes in Hdrop.
      injection Hdrop as Hdrop. rewrite <- !app_assoc in Hdrop. cbn [app] in Hdrop.
      apply phrase_after_space in Hdrop as (w & Hw & Hnw); [|done..].
      apply bytes_inj in Hnw. by subst w. }
  split; [exact Hfind|].
  rewrite (checkBoolFuncStyle_steps l fn doc c) by done.
  assert (antipatternCheck compiled (Text c) (Name fn) l
          = Some (emit [funcFinding l fn "bad predicate comment"] l)) as ->.
  { unfold antipatternCheck. cbn [predAntipattern compiled]. rewrite Hfind.
    cbv zeta. replace (3 + len (Name fn) - len (Name fn)) with 3 by lia.
    by apply warnFunc_emit. }
  cbn [mbind option_bind].
  destruct (predPrefixCheck_emits
              (emit [funcFinding l fn "bad predicate comment"] l) fn
              (Text c) (Name fn)) as (more & Hmore & ->); [done|].
  exists more. split; [done|]. by rewrite <- emit_app.
Qed.

Lemma phrase_after_name_reported_witness :
  let l := setCurrent Inputs.tells Sample.l0 in
  FindStringIndex (predAntipattern compiled) "// IsOK tells whether x holds."
  = Some (3 + len "IsOK")
  ∧ ∃ more,
      (more = [] ∨ more = [funcFinding l Inputs.tells "bad predicate comment"])
      ∧ checkBoolFuncStyle Inputs.tellsDoc l
        = Some (emit (funcFinding l Inputs.tells "bad predicate comment" :: more) l).
Proof.
  intros l.
  apply (phrase_after_name_reported l Inputs.tells Inputs.tellsDoc
           {| Text := "// IsOK tells whether x holds." |}
           "tells whether" (bytes "x holds."));
    [reflexivity | reflexivity | reflexivity | reflexivity | message_in
    | reflexivity | | | reflexivity].
  - intros Hin. vm_compute in Hin.
    repeat (apply elem_of_cons in Hin as [Hin | Hin]; [discriminate|]).
    by apply elem_of_nil in Hin.
  - intros Hin. vm_compute in Hin.
    repeat (apply elem_of_cons in Hin as [Hin | Hin]; [discriminate|]).
    by apply elem_of_nil in Hin.
Defined.

Module RunFacts.

Lemma CheckPackage_in_reports entries name l :
  Z.of_nat (length entries) < 2 ^ 63 →
  length (docFiles entries) ≠ 1%nat →
  ∃ o, CheckPackage_in entries name l = Some (emit [o] l).
Proof.
  intros Hsize Hn. unfold CheckPackage_in. rewrite scanDocs_spec.
  rewrite int_wrap_small by (pose proof (docFiles_length_le entries); lia).
  replace (_ =? 1) with false by (symmetry; apply Z.eqb_neq; lia).
  destruct (_ =? 0); rewrite warnPkg_emit; eauto.
Qed.

(** A call only adds to what was written. *)
Lemma doCall_grows c l :
  regexp l = Some compiled → callParsed c = true →
  ∃ l' outs, doCall c l = Some l' ∧ regexp l' = Some compiled
             ∧ stderr l' = stderr l ++ outs.
Proof.
  intros Hr Hp. destruct c as [entries name|f]; cbn [doCall callParsed] in *.
  - destruct (CheckPackage_in_emits entries name l) as [a Ha].
    exists (emit a l), a. by rewrite regexp_emit, stderr_emit.
  - unfold CheckFile, fileParsed in *. revert l Hr.
    induction (Decls f) as [|d ds IH]; intros l Hr.
    { exists l, []. by rewrite app_nil_r. }
    cbn [forallb] in Hp. apply andb_true_iff in Hp as [Hd Hds].
    cbn [CheckFile_loop].
    assert (∃ l1 o1, checkDecl d l = Some l1 ∧ regexp l1 = Some compiled
                     ∧ stderr l1 = stderr l ++ o1) as (l1 & o1 & H1 & Hr1 & Hs1).
    { destruct d as [decl|doc]; [|exists l, []; by rewrite app_nil_r].
      destruct (Doc decl) as [doc|] eqn:Hdoc.
      - destruct (checkDecl_emits l decl doc) as [outs H]; [done..| |].
        { simpl in Hd. rewrite Hdoc in Hd. by destruct (List doc). }
        eexists _, outs. split; [exact H|]. by rewrite regexp_emit, stderr_emit.
      - exists l, []. unfold checkDecl. by rewrite Hdoc, app_nil_r. }
    destruct (IH Hds l1 Hr1) as (l2 & o2 & H2 & Hr2 & Hs2).
    exists l2, (o1 ++ o2). rewrite H1. cbn [mbind option_bind].
    by rewrite H2, Hs2, Hs1, app_assoc.
Qed.

Lemma checkCalls_grows cs l :
  regexp l = Some compiled → forallb callParsed cs = true →
  ∃ l' outs, checkCalls cs l = Some l' ∧ regexp l' = Some compiled
             ∧ stderr l' = stderr l ++ outs.
Proof.
  revert l. induction cs as [|c cs IH]; intros l Hr Hp.
  { exists l, []. by rewrite app_nil_r. }
  cbn [forallb] in Hp. apply andb_true_iff in Hp as [Hc Hcs].
  destruct (doCall_grows c l Hr Hc) as (l1 & o1 & H1 & Hr1 & Hs1).
  destruct (IH l1 Hr1 Hcs) as (l2 & o2 & H2 & Hr2 & Hs2).
  exists l2, (o1 ++ o2). cbn [checkCalls]. rewrite H1. cbn [mbind option_bind].
  by rewrite H2, Hs2, Hs1, app_assoc.
Qed.

End RunFacts.

Import RunFacts.

(** ** The whole run, further *)

(** X14. A run over parsed packages of which one has no package comment,
    or more than one, ends with at least one line written and, the
    counter not having wrapped, with exit status 1, whatever the functions
    of the packages are. *)
Theorem run_fails_without_single_doc (path : string) (fset : Z → string)
    (pkgs : list Package) (pkg : Package) :
  forallb packageParsed pkgs = true → pkg ∈ pkgs →
  Z.of_nat (size (Files pkg)) < 2 ^ 63 →
  length (docFiles (map_to_list (Files pkg))) ≠ 1%nat →
  ∃ l, checkAll pkgs (initRegexps (newLinter path fset)) = Some l
       ∧ stderr l ≠ []
       ∧ (Z.of_nat (length (stderr l)) < 2 ^ 64 →
          run path fset pkgs = Some 1).
Proof.
  intros Hparsed Hin Hsize Hdocs.
  set (l0 := initRegexps (newLinter path fset)).
  destruct (checkCalls_total (concat (map callsOf pkgs)) l0) as (l & Hl & Hn);
    [done | done | by apply callsOf_parsed |].
  assert (stderr l ≠ []) as Hne.
  { apply list_elem_of_split in Hin as (before & after & ->).
    rewrite map_app, concat_app in Hl. cbn [map concat] in Hl.
    rewrite forallb_app in Hparsed. cbn [forallb] in Hparsed.
    apply andb_true_iff in Hparsed as [Hb [Hp Ha]%andb_true_iff].
    rewrite checkCalls_app in Hl.
    destruct (checkCalls_grows (concat (map callsOf before)) l0)
      as (l1 & o1 & H1 & Hr1 & _); [done | by apply callsOf_parsed |].
    rewrite H1 in Hl. cbn [mbind option_bind] in Hl.
    change (callsOf pkg ++ concat (map callsOf after))
      with (CallPackage (map_to_list (Files pkg)) (PkgName pkg)
            :: (map CallFile (map snd (map_to_list (Files pkg)))
                ++ concat (map callsOf after))) in Hl.
    cbn [checkCalls doCall] in Hl.
    destruct (CheckPackage_in_reports (map_to_list (Files pkg)) (PkgName pkg) l1)
      as [o Ho]; [by rewrite length_map_to_list | done |].
    rewrite Ho in Hl. cbn [mbind option_bind] in Hl.
    destruct (checkCalls_grows
                (map CallFile (map snd (map_to_list (Files pkg)))
                 ++ concat (map callsOf after)) (emit [o] l1))
      as (l2 & o2 & H2 & _ & Hs2).
    { by rewrite regexp_emit. }
    { rewrite forallb_app, (callsOf_parsed after Ha), andb_true_r.
      pose proof (callsOf_parsed [pkg]) as Hpkg. cbn [map concat forallb] in Hpkg.
      rewrite app_nil_r, andb_true_r in Hpkg.
      specialize (Hpkg Hp). unfold callsOf in Hpkg. cbn [forallb callParsed] in Hpkg.
      done. }
    rewrite H2 in Hl. injection Hl as <-. rewrite Hs2, stderr_emit.
    intros Hnil. apply app_eq_nil in Hnil as [Hnil _].
    by apply app_eq_nil in Hnil as [_ ?]. }
  rewrite <- checkAll_calls in Hl. exists l. split; [done|]. split; [done|].
  intros Hlen. unfold run. fold l0. rewrite Hl. cbn [mbind option_bind].
  unfold ExitCode. rewrite Hn. destruct (_ =? 0) eqn:E; [|done].
  apply Z.eqb_eq in E.
  apply (proj1 (int_wrap_zero_iff _ (conj (Nat2Z.is_nonneg _) Hlen))) in E.
  destruct (stderr l); [done | cbn [length] in E; lia].
Qed.

Lemma run_fails_without_single_doc_witness :
  ∃ l, checkAll [Inputs.barePkg] (initRegexps (newLinter "pkg" Sample.pos)) = Some l
       ∧ stderr l ≠ []
       ∧ (Z.of_nat (length (stderr l)) < 2 ^ 64 →
          run "pkg" Sample.pos [Inputs.barePkg] = Some 1).
Proof.
  apply (run_fails_without_single_doc "pkg" Sample.pos [Inputs.barePkg]
           Inputs.barePkg).
  - vm_compute. reflexivity.
  - constructor.
  - vm_compute. reflexivity.
  - vm_compute. discriminate.
Defined.

(** X6. In package [main], with fewer than [2 ^ 63] files, [CheckPackage]
    writes nothing exactly when one file carries a package comment: the
    length of that comment and the name of its file do not matter. *)
Theorem CheckPackage_main_iff (entries : list (string * File)) (l : linter) :
  Z.of_nat (length entries) < 2 ^ 63 →
  (CheckPackage_in entries "main" l = Some l
   ↔ length (docFiles entries) = 1%nat).
Proof.
  intros Hsize. split.
  - intros H. destruct (decide (length (docFiles entries) = 1%nat)) as [|Hn]; [done|].
    destruct (CheckPackage_in_reports entries "main" l Hsize Hn) as [o Ho].
    rewrite Ho in H. apply Some_emit_inv in H. discriminate.
  - intros Hn. unfold CheckPackage_in. rewrite scanDocs_spec, Hn. done.
Qed.

Lemma CheckPackage_main_iff_witness :
  CheckPackage_in (map_to_list (Files Inputs.mainPkg)) "main" Sample.l0
  = Some Sample.l0
  ↔ length (docFiles (map_to_list (Files Inputs.mainPkg))) = 1%nat.
Proof.
  apply (CheckPackage_main_iff (map_to_list (Files Inputs.mainPkg))).
  vm_compute. reflexivity.
Defined.

(** ** Names and endings the checks read as meant *)

(** X15. For a name in which the prefix pattern can only be found at the
    start, the prefix step is silent exactly when the name does not begin
    with one of the prefixes followed by an upper-case letter or digit, or
    the line contains ["<Name> reports whether "]. *)
Theorem predPrefixCheck_silent_iff (l : linter) (fn : FuncDecl)
    (line name : string) :
  current l = Some fn →
  (∀ n, predicatePrefixAt (bytes name) n → n = 0%nat) →
  (predPrefixCheck compiled line name l = Some l
   ↔ beginsWithPredicatePrefix name = false
     ∨ Contains line (name +:+ " reports whether ") = true).
Proof.
  intros Hc Hstart. rewrite (predPrefixCheck_anchored l fn) by done.
  destruct (beginsWithPredicatePrefix name), (Contains line _); cbn [negb andb].
  - split; [auto | done].
  - split; [|intros [|]; done]. intros H%Some_emit_inv. discriminate.
  - split; [auto | done].
  - split; [auto | done].
Qed.

Lemma predPrefixCheck_silent_iff_witness :
  predPrefixCheck compiled "// IsOK returns true if x holds." "IsOK"
    (setCurrent Sample.isOK Sample.l0)
  = Some (setCurrent Sample.isOK Sample.l0)
  ↔ beginsWithPredicatePrefix "IsOK" = false
    ∨ Contains "// IsOK returns true if x holds."
        ("IsOK" +:+ " reports whether ") = true.
Proof.
  apply (predPrefixCheck_silent_iff _ Sample.isOK); [reflexivity|].
  intros n H. apply matchAtHead_predPrefix, matchesHere_spec in H.
  do 5 (destruct n as [|n]; [first [reflexivity | vm_compute in H; discriminate H]|]).
  vm_compute in H. discriminate H.
Defined.

(** X16. For a comment group of one line-comment that ends in an ASCII
    byte, that byte is the last character, and [checkEndsWithPunct] is
    silent exactly when it is punctuation. *)
Theorem checkEndsWithPunct_ascii_iff (l : linter) (fn : FuncDecl)
    (doc : CommentGroup) (c : Comment) (b : ascii) :
  current l = Some fn → List doc = [c] →
  HasPrefix (Text c) "//" = true → lastByte (Text c) = Some b → rune b < 128 →
  Unicode.lastChar (Text c) = Some (rune b)
  ∧ (checkEndsWithPunct doc l = Some l ↔ Unicode.IsPunct (rune b) = true).
Proof.
  intros Hc Hd Hp Hb Hascii. split; [by apply lastChar_ascii|].
  rewrite (checkEndsWithPunct_single l fn doc c b) by done.
  destruct (Unicode.IsPunct (rune b)); split; try done.
  intros H%Some_emit_inv. discriminate.
Qed.

Lemma checkEndsWithPunct_ascii_iff_witness :
  Unicode.lastChar "// HasFoo reports whether foo holds." = Some (rune ".")
  ∧ (checkEndsWithPunct Sample.hasFooDoc (setCurrent Sample.hasFoo Sample.l0)
     = Some (setCurrent Sample.hasFoo Sample.l0)
     ↔ Unicode.IsPunct (rune ".") = true).
Proof.
  apply (checkEndsWithPunct_ascii_iff _ Sample.hasFoo Sample.hasFooDoc
           {| Text := "// HasFoo reports whether foo holds." |} "."%char);
    [reflexivity | reflexivity | vm_compute; reflexivity
    | vm_compute; reflexivity | vm_compute; reflexivity].
Defined.

(** ** A whole file *)

(** X17. For a parsed file, [CheckFile] returns, keeps what was written
    before, and every line it adds is anchored at the position of a
    function of the file that has a comment and carries one of the four
    messages. *)
Theorem CheckFile_lines (f : File) (l : linter) :
  regexp l = Some compiled → fileParsed f = true →
  ∃ l' outs,
    CheckFile f l = Some l'
    ∧ stderr l' = stderr l ++ outs
    ∧ Forall (λ o, ∃ decl m, DFunc decl ∈ Decls f ∧ is_Some (Doc decl)
                             ∧ m ∈ funcMessages ∧ o = funcFinding l decl m)
             outs.
Proof.
  unfold CheckFile, fileParsed. intros Hr Hp.
  assert (∀ ds l1, regexp l1 = Some compiled → fset l1 = fset l →
            forallb docNonEmpty ds = true →
            ∃ l' outs,
              CheckFile_loop ds l1 = Some l'
              ∧ stderr l' = stderr l1 ++ outs
              ∧ Forall (λ o, ∃ decl m, DFunc decl ∈ ds ∧ is_Some (Doc decl)
                                       ∧ m ∈ funcMessages
                                       ∧ o = funcFinding l decl m) outs) as Hloop.
  { induction ds as [|d ds IH]; intros l1 Hr1 Hf1 Hds.
    { exists l1, []. split; [done|]. split; [by rewrite app_nil_r | constructor]. }
    cbn [forallb] in Hds. apply andb_true_iff in Hds as [Hd Hds].
    cbn [CheckFile_loop].
    assert (∀ l2, checkDecl d l1 = Some l2 → regexp l2 = Some compiled →
              fset l2 = fset l → ∀ o1, stderr l2 = stderr l1 ++ o1 →
              Forall (λ o, ∃ decl m, DFunc decl ∈ d :: ds ∧ is_Some (Doc decl)
                                     ∧ m ∈ funcMessages
                                     ∧ o = funcFinding l decl m) o1 →
              ∃ l' outs,
                checkDecl d l1 ≫= CheckFile_loop ds = Some l'
                ∧ stderr l' = stderr l1 ++ outs
                ∧ Forall (λ o, ∃ decl m, DFunc decl ∈ d :: ds ∧ is_Some (Doc decl)
                                         ∧ m ∈ funcMessages
                                         ∧ o = funcFinding l decl m) outs) as Hstep.
    { intros l2 H2 Hr2 Hf2 o1 Hs2 Ho1.
      destruct (IH l2 Hr2 Hf2 Hds) as (l' & o2 & H' & Hs' & Ho2).
      exists l', (o1 ++ o2). rewrite H2. cbn [mbind option_bind].
      split; [done|]. split; [by rewrite Hs', Hs2, app_assoc|].
      apply Forall_app. split; [done|].
      eapply Forall_impl; [exact Ho2|]. intros o (decl & m & Hin & Hrest).
      exists decl, m. split; [by constructor | done]. }
    destruct d as [decl|gdoc].
    - destruct (Doc decl) as [doc|] eqn:Hdoc.
      + destruct (checkDecl_messages l1 decl doc) as (ms & Hms & _ & Hrun);
          [done | done | |].
        { simpl in Hd. rewrite Hdoc in Hd. by destruct (List doc). }
        eapply (Hstep _ Hrun);
          [by rewrite regexp_emit | by rewrite fset_emit
          | rewrite stderr_emit; reflexivity |].
        apply Forall_forall. intros o (m & -> & Hm)%list_elem_of_fmap.
        exists decl, m. split; [constructor|]. split; [by rewrite Hdoc|].
        split; [by eapply Forall_forall in Hms|].
        unfold funcFinding. by rewrite Hf1.
      + eapply (Hstep l1);
          [by unfold checkDecl; rewrite Hdoc | done | done
          | symmetry; apply app_nil_r | constructor].
    - eapply (Hstep l1);
        [done | done | done | symmetry; apply app_nil_r | constructor]. }
  by apply Hloop.
Qed.

Lemma CheckFile_lines_witness :
  ∃ l' outs,
    CheckFile (Sample.fileWith None [DFunc Sample.isOK]) Sample.l0 = Some l'
    ∧ stderr l' = stderr Sample.l0 ++ outs
    ∧ Forall (λ o, ∃ decl m,
                DFunc decl ∈ Decls (Sample.fileWith None [DFunc Sample.isOK])
                ∧ is_Some (Doc decl) ∧ m ∈ funcMessages
                ∧ o = funcFinding Sample.l0 decl m)
             outs.
Proof.
  apply (CheckFile_lines (Sample.fileWith None [DFunc Sample.isOK]) Sample.l0);
    reflexivity.
Defined.

(** * The exit status *)

(** C10. Each call of [warnPkg], and each call of [warnFunc] within a
    function, appends one line to what was written and adds one to the
    counter. Once the packages are parsed the pass, which is the sequence
    of calls [CheckPackage] and [CheckFile] on each package, runs to its
    end; after every part of it the counter holds the number of lines
    written so far, and what was written so far stays written. The exit
    status is then 0 if nothing was written and 1 otherwise (for fewer
    than [2 ^ 64] findings, the range of the counter). *)
Theorem ExitCode_iff_no_findings (dir : string) (position : Z → string)
    (pkgs : list Package) :
  forallb packageParsed pkgs = true →
  let l0 := initRegexps (newLinter dir position) in
  (∀ l fileName format args,
     ∃ l', warnPkg fileName format args l = Some l'
           ∧ stderr l' = stderr l ++
               [Fprintf ((pkgAnchor l fileName +:+ ": ") +:+ format +:+ LF) args]
           ∧ issues l' = int_wrap (issues l + 1))
  ∧ (∀ l fn format args, current l = Some fn →
     ∃ l', warnFunc format args l = Some l'
           ∧ stderr l' = stderr l ++
               [Fprintf ((fset l (Pos fn) +:+ ": ") +:+ format +:+ LF) args]
           ∧ issues l' = int_wrap (issues l + 1))
  ∧ checkAll pkgs l0 = checkCalls (concat (map callsOf pkgs)) l0
  ∧ ∃ l, checkAll pkgs l0 = Some l
       ∧ run dir position pkgs = Some (ExitCode l)
       ∧ issues l = int_wrap (Z.of_nat (length (stderr l)))
       ∧ (∀ made rest, concat (map callsOf pkgs) = made ++ rest →
          ∃ l1 later, checkCalls made l0 = Some l1
                      ∧ issues l1 = int_wrap (Z.of_nat (length (stderr l1)))
                      ∧ stderr l = stderr l1 ++ later)
       ∧ (Z.of_nat (length (stderr l)) < 2 ^ 64 →
          (ExitCode l = 0 ↔ stderr l = []) ∧ (stderr l ≠ [] → ExitCode l = 1)).
Proof.
  intros Hp l0. split; [|split; [|split; [apply checkAll_calls|]]].
  { intros l fileName format args. rewrite warnPkg_emit. eexists.
    split; [reflexivity|]. by rewrite stderr_emit, issues_emit_one. }
  { intros l fn format args Hc. unfold warnFunc. rewrite Hc. eexists.
    split; [reflexivity|]. done. }
  pose proof (callsOf_parsed pkgs Hp) as Hparsed.
  destruct (checkCalls_total (concat (map callsOf pkgs)) l0) as (l & Hl & Hn);
    [done | done | done |].
  exists l. split; [by rewrite checkAll_calls|]. split.
  { unfold run. fold l0. by rewrite checkAll_calls, Hl. }
  split; [done|]. split.
  { intros made rest Hsplit. rewrite Hsplit in Hparsed, Hl.
    rewrite forallb_app in Hparsed. apply andb_true_iff in Hparsed as [Hm Hr].
    destruct (checkCalls_total made l0) as (l1 & H1 & Hn1); [done..|].
    destruct (checkCalls_grows made l0) as (l1' & ? & H1' & Hr1 & _); [done..|].
    rewrite H1 in H1'. injection H1' as <-.
    destruct (checkCalls_grows rest l1 Hr1 Hr) as (l2 & later & H2 & _ & Hs2).
    rewrite checkCalls_app, H1 in Hl. cbn [mbind option_bind] in Hl.
    rewrite H2 in Hl. injection Hl as <-. by exists l1, later. }
  intros Hlen.
  assert (ExitCode l = 0 ↔ stderr l = []) as Hiff.
  { unfold ExitCode. rewrite Hn. destruct (_ =? 0) eqn:E.
    - apply Z.eqb_eq in E.
      apply (proj1 (int_wrap_zero_iff _ (conj (Nat2Z.is_nonneg _) Hlen))) in E.
      split; [|done]. intros _. destruct (stderr l); [done | cbn [length] in E; lia].
    - apply Z.eqb_neq in E. split; [done|]. intros Hnil. rewrite Hnil in E. done. }
  split; [done|]. intros Hne. unfold ExitCode in *.
  destruct (issues l =? 0); [|done]. exfalso. apply Hne. by apply Hiff.
Qed.

Lemma ExitCode_iff_no_findings_witness :
  ∃ l, checkAll [Sample.twoDocsPkg] Sample.l0 = Some l
       ∧ stderr l = [Fprintf ("pkg: found %d doc-comments, expected 1" +:+ LF) [2]]
       ∧ issues l = 1
       ∧ run "pkg" Sample.pos [Sample.twoDocsPkg] = Some 1.
Proof.
  destruct (ExitCode_iff_no_findings "pkg" Sample.pos [Sample.twoDocsPkg])
    as (_ & _ & _ & l & Hall & Hrun & Hcount & _ & Hexit);
    [vm_compute; reflexivity|].
  assert (stderr <$> checkAll [Sample.twoDocsPkg] Sample.l0
          = Some [Fprintf ("pkg: found %d doc-comments, expected 1" +:+ LF) [2]])
    as Hout by (vm_compute; reflexivity).
  change (initRegexps (newLinter "pkg" Sample.pos)) with Sample.l0 in Hall.
  rewrite Hall in Hout. injection Hout as Hout.
  exists l. split; [exact Hall|]. split; [exact Hout|].
  rewrite Hout in Hcount, Hexit. split; [exact Hcount|].
  rewrite Hrun. f_equal. apply Hexit; [vm_compute; reflexivity | discriminate].
Defined.
